(** * Genaro committee consensus engine: a shallow embedding of
    [consensus/genaro] and the properties of its rule set.

    The development follows the Go source function by function.  Machine
    integers are [Z] with the wrap-around written out, [big.Int] values are
    [Z], byte slices are [list byte], Go maps are [gmap], and every function
    that mutates the header, the ledger or the engine returns the new value
    next to its result. *)

From Stdlib Require Import ZArith Lia List Permutation.
From Stdlib Require Import Strings.Byte Strings.String.
From stdpp Require Import base numbers option list gmap strings.

Local Open Scope Z_scope.

(** ** Outcomes of the engine's operations *)

(** The package's error values, those of [consensus] it returns, and the
    errors handed back by collaborators (signature recovery, the snapshot
    store), which the engine passes on untouched. *)
Inductive error : Type :=
| errEmptyExtra
| errUnauthorized
| errInvalidEpochBlock
| errInvalidDifficulty
| errUnknownBlock
| ErrUnknownAncestor
| ErrFutureBlock
| errCollaborator (code : Z).

#[global] Instance error_eq_decision : EqDecision error.
Proof. solve_decision. Defined.

(** A call returns normally, returns a non-nil [error], or panics (nil
    dereference, slice bounds, division by zero). *)
Inductive result (A : Type) : Type :=
| Ok (a : A)
| Err (e : error)
| Panic.

Arguments Ok {A} a.
Arguments Err {A} e.
Arguments Panic {A}.

#[global] Instance result_ret : MRet result := fun A a => Ok a.

#[global] Instance result_bind : MBind result := fun A B f m =>
  match m with
  | Ok a => f a
  | Err e => Err e
  | Panic => Panic
  end.

(** ** Go machine integers and [math/big] *)

Module Go.

(** [uint64(x)]: reduction modulo 2^64. *)
Definition to_uint64 (x : Z) : Z := x mod 2 ^ 64.

(** [int64(x)]: two's complement reinterpretation. *)
Definition to_int64 (x : Z) : Z := (x + 2 ^ 63) mod 2 ^ 64 - 2 ^ 63.

Definition add64 (x y : Z) : Z := to_uint64 (x + y).
Definition sub64 (x y : Z) : Z := to_uint64 (x - y).
Definition mul64 (x y : Z) : Z := to_uint64 (x * y).

(** Unsigned [x / y] and [x % y]; a zero divisor is a run-time panic. *)
Definition div64 (x y : Z) : result Z :=
  if y =? 0 then Panic else Ok (x / y).
Definition rem64 (x y : Z) : result Z :=
  if y =? 0 then Panic else Ok (x mod y).

(** The builtin [copy(dst, src)]: overwrites the first
    [min (len dst) (len src)] cells of [dst]. *)
Definition copy {A : Type} (dst src : list A) : list A :=
  take (length dst) src ++ drop (length src) dst.

End Go.

Module big.

(** [big.NewInt(int64(x))] for a [uint64] or [int] operand [x]. *)
Definition NewInt (x : Z) : Z := Go.to_int64 x.

Definition Mul (x y : Z) : Z := x * y.
Definition Add (x y : Z) : Z := x + y.
Definition Sub (x y : Z) : Z := x - y.

(** [z.Div(x, y)] is Euclidean division (the remainder is never negative)
    and panics on a zero divisor. *)
Definition Div (x y : Z) : result Z :=
  if y =? 0 then Panic
  else Ok (if 0 <? y then x / y else - (x / - y)).

(** [x.Cmp(y)] *)
Definition Cmp (x y : Z) : Z :=
  match x ?= y with
  | Lt => -1
  | Eq => 0
  | Gt => 1
  end.

(** [x.Uint64()]: the low 64 bits of the magnitude. *)
Definition Uint64 (x : Z) : Z := Z.abs x mod 2 ^ 64.

(** [x.Int64()]: the low 64 bits of the magnitude as an [int64], negated
    when [x] is negative. *)
Definition Int64 (x : Z) : Z :=
  let v := Go.to_int64 (Z.abs x mod 2 ^ 64) in
  if x <? 0 then Go.to_int64 (- v) else v.

End big.

(** ** Addresses and hashes ([common]) *)

#[global] Instance byte_eq_decision : EqDecision byte := Byte.byte_eq_dec.

Definition byte_of_N (n : N) : byte := default x00 (Byte.of_N n).

Lemma byte_of_to_N (b : byte) : byte_of_N (Byte.to_N b) = b.
Proof. unfold byte_of_N. by rewrite Byte.of_to_N. Qed.

#[global] Instance byte_countable : Countable byte :=
  inj_countable' Byte.to_N byte_of_N byte_of_to_N.

(** [common.Address] is a [[20]byte] array, [common.Hash] a [[32]byte]. *)
Abbreviation Address := (list byte).
Abbreviation Hash := (list byte).

Module common.

Definition AddressLength : nat := 20.
Definition HashLength : nat := 32.

(** [common.Address{}] *)
Definition zeroAddress : Address := replicate AddressLength x00.
(** [common.Hash{}] *)
Definition zeroHash : Hash := replicate HashLength x00.

(** Modelled from the spec: [common.BytesToAddress] is not among the
    sources; the ledger counters are addressed by short ASCII names and
    an address is a fixed 20-byte identifier, so the name is right-aligned
    in the array (cropped from the left when longer), the bytes before it
    being zero. *)
Definition BytesToAddress (b : list byte) : Address :=
  let b' := drop (length b - AddressLength)%nat b in
  let off := (AddressLength - length b')%nat in
  take off zeroAddress ++ Go.copy (drop off zeroAddress) b'.

End common.

(** ** Configuration and block headers ([params], [core/types]) *)

Module params.

Record GenaroConfig : Type := {
  Epoch : Z;
  BlockInterval : Z;
  ElectionPeriod : Z;
  ValidPeriod : Z;
  CurrencyRates : Z;
  CommitteeMaxSize : Z
}.

End params.

Module types.

(** The header fields the engine reads and writes; [Difficulty], [Number]
    and [Time] are [*big.Int]. *)
Record Header : Type := {
  ParentHash : Hash;
  UncleHash : Hash;
  Coinbase : Address;
  Root : Hash;
  TxHash : Hash;
  ReceiptHash : Hash;
  Bloom : list byte;
  Difficulty : Z;
  Number : Z;
  GasLimit : Z;
  GasUsed : Z;
  Time : Z;
  Extra : list byte;
  MixDigest : Hash;
  Nonce : list byte
}.

Definition set_Coinbase (h : Header) (v : Address) : Header :=
  {| ParentHash := ParentHash h; UncleHash := UncleHash h; Coinbase := v;
     Root := Root h; TxHash := TxHash h; ReceiptHash := ReceiptHash h;
     Bloom := Bloom h; Difficulty := Difficulty h; Number := Number h;
     GasLimit := GasLimit h; GasUsed := GasUsed h; Time := Time h;
     Extra := Extra h; MixDigest := MixDigest h; Nonce := Nonce h |}.

Definition set_Root (h : Header) (v : Hash) : Header :=
  {| ParentHash := ParentHash h; UncleHash := UncleHash h;
     Coinbase := Coinbase h; Root := v; TxHash := TxHash h;
     ReceiptHash := ReceiptHash h; Bloom := Bloom h;
     Difficulty := Difficulty h; Number := Number h;
     GasLimit := GasLimit h; GasUsed := GasUsed h; Time := Time h;
     Extra := Extra h; MixDigest := MixDigest h; Nonce := Nonce h |}.

Definition set_UncleHash (h : Header) (v : Hash) : Header :=
  {| ParentHash := ParentHash h; UncleHash := v; Coinbase := Coinbase h;
     Root := Root h; TxHash := TxHash h; ReceiptHash := ReceiptHash h;
     Bloom := Bloom h; Difficulty := Difficulty h; Number := Number h;
     GasLimit := GasLimit h; GasUsed := GasUsed h; Time := Time h;
     Extra := Extra h; MixDigest := MixDigest h; Nonce := Nonce h |}.

Definition set_Difficulty (h : Header) (v : Z) : Header :=
  {| ParentHash := ParentHash h; UncleHash := UncleHash h;
     Coinbase := Coinbase h; Root := Root h; TxHash := TxHash h;
     ReceiptHash := ReceiptHash h; Bloom := Bloom h; Difficulty := v;
     Number := Number h; GasLimit := GasLimit h; GasUsed := GasUsed h;
     Time := Time h; Extra := Extra h; MixDigest := MixDigest h;
     Nonce := Nonce h |}.

Definition set_Time (h : Header) (v : Z) : Header :=
  {| ParentHash := ParentHash h; UncleHash := UncleHash h;
     Coinbase := Coinbase h; Root := Root h; TxHash := TxHash h;
     ReceiptHash := ReceiptHash h; Bloom := Bloom h;
     Difficulty := Difficulty h; Number := Number h;
     GasLimit := GasLimit h; GasUsed := GasUsed h; Time := v;
     Extra := Extra h; MixDigest := MixDigest h; Nonce := Nonce h |}.

Definition set_Extra (h : Header) (v : list byte) : Header :=
  {| ParentHash := ParentHash h; UncleHash := UncleHash h;
     Coinbase := Coinbase h; Root := Root h; TxHash := TxHash h;
     ReceiptHash := ReceiptHash h; Bloom := Bloom h;
     Difficulty := Difficulty h; Number := Number h;
     GasLimit := GasLimit h; GasUsed := GasUsed h; Time := Time h;
     Extra := v; MixDigest := MixDigest h; Nonce := Nonce h |}.

Definition set_MixDigest (h : Header) (v : Hash) : Header :=
  {| ParentHash := ParentHash h; UncleHash := UncleHash h;
     Coinbase := Coinbase h; Root := Root h; TxHash := TxHash h;
     ReceiptHash := ReceiptHash h; Bloom := Bloom h;
     Difficulty := Difficulty h; Number := Number h;
     GasLimit := GasLimit h; GasUsed := GasUsed h; Time := Time h;
     Extra := Extra h; MixDigest := v; Nonce := Nonce h |}.

Definition set_Nonce (h : Header) (v : list byte) : Header :=
  {| ParentHash := ParentHash h; UncleHash := UncleHash h;
     Coinbase := Coinbase h; Root := Root h; TxHash := TxHash h;
     ReceiptHash := ReceiptHash h; Bloom := Bloom h;
     Difficulty := Difficulty h; Number := Number h;
     GasLimit := GasLimit h; GasUsed := GasUsed h; Time := Time h;
     Extra := Extra h; MixDigest := MixDigest h; Nonce := v |}.

(** [types.BlockNonce{}] *)
Definition zeroNonce : list byte := replicate 8%nat x00.

(** The items handed to [rlp.Encode]. *)
Inductive rlpItem : Type :=
| rlpBytes (b : list byte)
| rlpInt (n : Z).

End types.

Import params types.

(** ** Header extension payload

    The payload starts with the 65-byte signature; the committee rank list
    and the proportions follow on epoch-boundary blocks. *)

Module extra.

Definition SignatureLength : nat := 65.

(** Modelled from the spec: [ExtraData] is not among the sources.  The
    decoded payload: the detachable signature and, on epoch-boundary
    blocks, the serialized committee rank list (20 bytes per address) and
    the per-member proportions. *)
Record ExtraData : Type := {
  Signature : list byte;
  CommitteeRank : list byte;
  Proportion : list Z
}.

(** The part of the codec that lays out the committee section behind the
    signature; its serialisation is a collaborator's. *)
Class CommitteeCodec : Type := {
  rankBytes : list byte -> list byte;
  proportions : list byte -> list Z;
  GetHeaderCommitteeRankList : Header -> list Address * list Z;
  SetHeaderCommitteeRankList : Header -> list Address -> list Z -> Header
}.

(** Modelled from the spec: [UnmarshalToExtra] is not among the sources.
    The payload is [[65-byte signature][rank list][proportions]]; a payload
    too short to hold the signature is absent or malformed and decodes to
    [nil]. *)
Definition UnmarshalToExtra `{CommitteeCodec} (header : Header) : option ExtraData :=
  let e := Extra header in
  if decide (length e < SignatureLength)%nat then None
  else Some {| Signature := take SignatureLength e;
               CommitteeRank := rankBytes (drop SignatureLength e);
               Proportion := proportions (drop SignatureLength e) |}.

(** Modelled from the spec: [SetHeaderSignature] is not among the sources.
    It is a mutator of the payload's signature region (the first 65 bytes,
    zero-extended when the payload is shorter) and leaves the bytes behind
    the region in place. *)
Definition SetHeaderSignature (header : Header) (signature : list byte) : Header :=
  let e := Extra header in
  let region := take SignatureLength (e ++ replicate SignatureLength x00) in
  set_Extra header (Go.copy region signature ++ drop SignatureLength e).

(** Modelled from the spec: [ResetHeaderSignature] is not among the
    sources.  Clearing blanks the signature region and keeps the layout. *)
Definition ResetHeaderSignature (header : Header) : Header :=
  SetHeaderSignature header (replicate SignatureLength x00).

End extra.

(** ** Signature recovery *)

(** Hashing, canonical encoding and public-key recovery are collaborators;
    [Ecrecover] returns the public key or an error. *)
Class Crypto : Type := {
  Keccak256 : list byte -> list byte;
  rlpEncode : list rlpItem -> list byte;
  Ecrecover : Hash -> list byte -> error + list byte
}.

Section Recovery.
Context `{Crypto} `{extra.CommitteeCodec}.

Definition sigHash (header : Header) : Hash :=
  Keccak256 (rlpEncode [
    rlpBytes (ParentHash header);
    rlpBytes (UncleHash header);
    rlpBytes (Coinbase header);
    rlpBytes (Root header);
    rlpBytes (TxHash header);
    rlpBytes (ReceiptHash header);
    rlpBytes (Bloom header);
    rlpInt (Difficulty header);
    rlpInt (Number header);
    rlpInt (GasLimit header);
    rlpInt (GasUsed header);
    rlpInt (Time header);
    rlpBytes (Extra header);
    rlpBytes (MixDigest header);
    rlpBytes (Nonce header)]).

(** [ecrecover] returns the signer and leaves the header as the pointer's
    target is when the call ends. *)
Definition ecrecover (header : Header) : result Address * Header :=
  match extra.UnmarshalToExtra header with
  | None => (Err errEmptyExtra, header)
  | Some extraData =>
      let signature := extra.Signature extraData in
      let header1 := extra.ResetHeaderSignature header in
      let recovered := Ecrecover (sigHash header1) signature in
      let header2 := extra.SetHeaderSignature header1 signature in
      match recovered with
      | inl err => (Err err, header2)
      | inr pubkey =>
          if decide (length pubkey < 1)%nat then (Panic, header2)
          else
            let digest := Keccak256 (drop 1 pubkey) in
            if decide (length digest < 12)%nat then (Panic, header2)
            else (Ok (Go.copy common.zeroAddress (drop 12 digest)), header2)
      end
  end.

End Recovery.

(** ** The ledger ([core/state]) *)

Module state.

(** A candidate as [Rank] reads it, and a pending withdrawal as the
    maturation loops read it. *)
Record CandidateInfo : Type := {
  Signer : Address;
  Heft : Z;
  Stake : Z
}.

Record AlreadyBackStake : Type := {
  Addr : Address;
  BackBlockNumber : Z
}.

(** Modelled from the spec: [StateDB] is not among the sources.  The
    ledger exposes balances by address, the candidate roster over a block
    range, the heft metric per candidate and the pending withdrawal list. *)
Record StateDB : Type := {
  balances : gmap Address Z;
  candidates : list Address;
  heftLastDiff : Address -> Z -> Z;
  candidatesInfoInRange : Z -> Z -> list CandidateInfo;
  alreadyBackStakeList : list AlreadyBackStake
}.

Definition set_balances (s : StateDB) (b : gmap Address Z) : StateDB :=
  {| balances := b; candidates := candidates s;
     heftLastDiff := heftLastDiff s;
     candidatesInfoInRange := candidatesInfoInRange s;
     alreadyBackStakeList := alreadyBackStakeList s |}.

(** Modelled from the spec: [StateDB.GetBalance] is not among the sources.
    Balance get by address; an account never written has balance zero, and
    a read hands out the value, not the ledger's cell. *)
Definition GetBalance (s : StateDB) (a : Address) : Z :=
  default 0 (balances s !! a).

(** Modelled from the spec: [StateDB.SetBalance] is not among the sources.
    Balance set by address. *)
Definition SetBalance (s : StateDB) (a : Address) (amount : Z) : StateDB :=
  set_balances s (<[a := amount]> (balances s)).

(** Modelled from the spec: [StateDB.AddBalance] is not among the sources.
    Balance add by address. *)
Definition AddBalance (s : StateDB) (a : Address) (amount : Z) : StateDB :=
  SetBalance s a (big.Add (GetBalance s a) amount).

(** Modelled from the spec: [StateDB.SubBalance] is not among the sources.
    Balance sub by address. *)
Definition SubBalance (s : StateDB) (a : Address) (amount : Z) : StateDB :=
  SetBalance s a (big.Sub (GetBalance s a) amount).

(** Modelled from the spec: [StateDB.GetCandidates] is not among the
    sources.  The addresses of the staking candidates. *)
Definition GetCandidates (s : StateDB) : list Address := candidates s.

(** Modelled from the spec: [StateDB.GetHeftLastDiff] is not among the
    sources.  The storage-contribution metric of a candidate over the
    block window. *)
Definition GetHeftLastDiff (s : StateDB) (c : Address) (blockNumber : Z) : Z :=
  heftLastDiff s c blockNumber.

(** Modelled from the spec: [StateDB.GetCandidatesInfoInRange] is not among
    the sources.  The candidate roster over a block range. *)
Definition GetCandidatesInfoInRange (s : StateDB) (from to : Z) : list CandidateInfo :=
  candidatesInfoInRange s from to.

(** Modelled from the spec: [StateDB.GetAlreadyBackStakeList] is not among
    the sources.  The pending withdrawal list. *)
Definition GetAlreadyBackStakeList (s : StateDB) : list AlreadyBackStake :=
  alreadyBackStakeList s.

(** Modelled from the spec: [StateDB.SetAlreadyBackStakeList] is not among
    the sources.  Replaces the pending withdrawal list. *)
Definition SetAlreadyBackStakeList (s : StateDB) (l : list AlreadyBackStake) : StateDB :=
  {| balances := balances s; candidates := candidates s;
     heftLastDiff := heftLastDiff s;
     candidatesInfoInRange := candidatesInfoInRange s;
     alreadyBackStakeList := l |}.

(** [CandidateInfos.Apply] and the [sort.Interface] of [CandidateInfos]
    live with the ledger; [Rank] only calls them. *)
Class CandidateOps : Type := {
  Apply : list CandidateInfo -> list CandidateInfo;
  Sort : list CandidateInfo -> list CandidateInfo
}.

End state.

Import state.

(** ** Committee snapshots *)

Record CommitteeSnapshot : Type := {
  snapConfig : GenaroConfig;
  WriteBlockNumber : Z;
  WriteBlockHash : Hash;
  EpochNumber : Z;
  CommitteeRank : list Address;
  CommitteeSize : Z;
  Committee : gmap Address Z
}.

(** The map filled by [snap.Committee[rank] = proportion[i]] in rank order:
    a later entry for the same address replaces an earlier one. *)
Definition committeeMap (committeeRank : list Address) (proportion : list Z) : gmap Address Z :=
  fold_left (fun m ap => <[ap.1 := ap.2]> m) (zip committeeRank proportion) ∅.

(** Modelled from the spec: [newSnapshot] is not among the sources.  A
    snapshot records the epoch it governs, the block it was derived from,
    the rank list, the committee size (the number of ranked members) and
    each member's proportion; a member without a proportion is an index
    out of range. *)
Definition newSnapshot (config : GenaroConfig) (number : Z) (hash : Hash)
    (epochNumber : Z) (committeeRank : list Address) (proportion : list Z) : result CommitteeSnapshot :=
  if decide (length proportion < length committeeRank)%nat then Panic
  else Ok {| snapConfig := config;
             WriteBlockNumber := number;
             WriteBlockHash := hash;
             EpochNumber := epochNumber;
             CommitteeRank := committeeRank;
             CommitteeSize := Go.to_uint64 (Z.of_nat (length committeeRank));
             Committee := committeeMap committeeRank proportion |}.

(** The position of the first occurrence of [addr] at or after position
    [i], or -1. *)
Fixpoint rankIndexFrom (i : Z) (rank : list Address) (addr : Address) : Z :=
  match rank with
  | [] => -1
  | a :: rest => if decide (a = addr) then i else rankIndexFrom (i + 1) rest addr
  end.

(** Modelled from the spec: [getCurrentRankIndex] is not among the
    sources.  It is the member's index in the rank list (rank 0 first) and
    negative for an address that is not in the list. *)
Definition getCurrentRankIndex (snap : CommitteeSnapshot) (addr : Address) : Z :=
  rankIndexFrom 0 (CommitteeRank snap) addr.

(** [CalcDifficulty(snap, addr, blockNumber)] *)
Definition CalcDifficulty (snap : CommitteeSnapshot) (addr : Address) (blockNumber : Z) : Z :=
  let index := getCurrentRankIndex snap addr in
  if index <? 0 then 0
  else
    let difficult := Go.sub64 (CommitteeSize snap) (Go.to_uint64 index) in
    Go.to_uint64 difficult.

(** ** The engine *)

(** [consensus.ChainReader], as far as the engine calls it. *)
Record ChainReader : Type := {
  GetHeader : Hash -> Z -> option Header;
  GetHeaderByNumber : Z -> option Header;
  ChainGenaroConfig : GenaroConfig
}.

(** The package's helpers kept in its other files, and [Header.Hash]. *)
Class EpochHelpers : Type := {
  GetTurnOfCommiteeByBlockNumber : GenaroConfig -> Z -> Z;
  GetFirstBlockNumberOfEpoch : GenaroConfig -> Z -> Z;
  GetLastBlockNumberOfEpoch : GenaroConfig -> Z -> Z;
  IsBackStakeBlockNumber : GenaroConfig -> Z -> Z -> bool;
  inturn : CommitteeSnapshot -> Z -> Address -> bool;
  headerHash : Header -> Hash
}.

(** The recent-snapshot cache (an ARC cache, whose lookups reorder it) and
    the durable snapshot store. *)
Class SnapshotStore (Cache DB : Type) : Type := {
  recentsGet : Cache -> Z -> option CommitteeSnapshot * Cache;
  recentsAdd : Cache -> Z -> CommitteeSnapshot -> Cache;
  store : CommitteeSnapshot -> DB -> option error * DB
}.

Record Genaro (Cache DB : Type) : Type := {
  config : GenaroConfig;
  db : DB;
  recents : Cache;
  signer : Address
}.

Arguments config {Cache DB} g.
Arguments db {Cache DB} g.
Arguments recents {Cache DB} g.
Arguments signer {Cache DB} g.

Definition set_store {Cache DB : Type} (g : Genaro Cache DB) (c : Cache) (d : DB) : Genaro Cache DB :=
  {| config := config g; db := d; recents := c; signer := signer g |}.

Definition epochLength : Z := 5000.
Definition epochPerYear : Z := 12.
Definition backStakePeriod : Z := 2.

Definition SurplusCoinAddress : string := "aaa".
Definition CoinActualRewardsAddress : string := "bbb".
Definition StorageActualRewardsAddress : string := "ccc".
Definition Pre : string := "pre".
Definition TotalActualRewardsAddress : string := "ggg".

Definition coinRewardsRatio : Z := 1250.
Definition storageRewardsRatio : Z := 1250.
Definition ratioPerYear : Z := 700.
Definition base : Z := 10000.

(** [common.BytesToAddress([]byte(name))] *)
Definition nameAddress (name : string) : Address :=
  common.BytesToAddress (list_byte_of_string name).

Section Engine.
Context {Cache DB : Type}.
Context `{Crypto} `{extra.CommitteeCodec} `{EpochHelpers} `{SnapshotStore Cache DB}.

(** [New]: a zero epoch length falls back to the default. *)
Definition New (conf : GenaroConfig) (snapshotDb : DB) (emptyCache : Cache) : Genaro Cache DB :=
  let conf' :=
    if Epoch conf =? 0 then
      {| Epoch := epochLength; BlockInterval := BlockInterval conf;
         ElectionPeriod := ElectionPeriod conf; ValidPeriod := ValidPeriod conf;
         CurrencyRates := CurrencyRates conf;
         CommitteeMaxSize := CommitteeMaxSize conf |}
    else conf in
  {| config := conf'; db := snapshotDb; recents := emptyCache;
     signer := common.zeroAddress |}.

(** [g.snapshot(chain, epollNumber)]: cache, then the genesis header, then
    the header one past the electoral window; a fresh snapshot is stored. *)
Definition snapshot (chain : ChainReader) (epollNumber : Z) (g : Genaro Cache DB)
    : result CommitteeSnapshot * Genaro Cache DB :=
  let lag := Go.add64 (ValidPeriod (config g)) (ElectionPeriod (config g)) in
  let '(hit, cache1) := recentsGet (recents g) epollNumber in
  let g1 := set_store g cache1 (db g) in
  let built : result (CommitteeSnapshot * bool) :=
    match hit with
    | Some s => Ok (s, false)
    | None =>
        if epollNumber <? lag then
          match GetHeaderByNumber chain 0 with
          | None => Panic
          | Some h =>
              let '(committeeRank, proportion) := extra.GetHeaderCommitteeRankList h in
              snap ← newSnapshot (ChainGenaroConfig chain) 0 (headerHash h) 0
                       committeeRank proportion;
              Ok (snap, true)
          end
        else
          let window :=
            Go.sub64 (Go.sub64 epollNumber (ValidPeriod (config g)))
                     (ElectionPeriod (config g)) in
          let startBlock := GetFirstBlockNumberOfEpoch (config g) window in
          let endBlock := GetLastBlockNumberOfEpoch (config g) window in
          match GetHeaderByNumber chain (Go.add64 endBlock 1) with
          | None => Panic
          | Some h =>
              let '(committeeRank, proportion) := extra.GetHeaderCommitteeRankList h in
              snap ← newSnapshot (ChainGenaroConfig chain) (big.Uint64 (Number h))
                       (headerHash h) window committeeRank proportion;
              Ok (snap, true)
          end
    end in
  match built with
  | Panic => (Panic, g1)
  | Err e => (Err e, g1)
  | Ok (snap, isCreateNew) =>
      let g2 := set_store g1 (recentsAdd (recents g1) epollNumber snap) (db g1) in
      if isCreateNew then
        match store snap (db g2) with
        | (Some err, d) => (Err err, set_store g2 (recents g2) d)
        | (None, d) => (Ok snap, set_store g2 (recents g2) d)
        end
      else (Ok snap, g2)
  end.

(** [Author] *)
Definition Author (header : Header) : result Address * Header :=
  ecrecover header.

(** [Prepare]; [now] is [time.Now().Unix()]. *)
Definition Prepare (chain : ChainReader) (now : Z) (g : Genaro Cache DB) (header : Header)
    : result unit * Genaro Cache DB * Header :=
  let header := set_Coinbase header (signer g) in
  let header := set_Nonce header zeroNonce in
  let number := big.Uint64 (Number header) in
  match snapshot chain (GetTurnOfCommiteeByBlockNumber (config g) number) g with
  | (Panic, g) => (Panic, g, header)
  | (Err err, g) => (Err err, g, header)
  | (Ok snap, g) =>
      let header := set_Difficulty header (CalcDifficulty snap (signer g) number) in
      let header := set_MixDigest header common.zeroHash in
      match GetHeader chain (ParentHash header) (Go.sub64 number 1) with
      | None => (Err ErrUnknownAncestor, g, header)
      | Some parent =>
          let header := set_Time header (Go.to_int64 now) in
          if big.Int64 (Time header) <? big.Int64 (Time parent) then
            (Ok (), g, set_Time header (Go.to_int64 (big.Int64 (Time parent) + 1)))
          else (Ok (), g, header)
      end
  end.

(** [time.Second], in nanoseconds. *)
Definition Second : Z := 1000000000.

(** [VerifySeal]; [now] is [time.Now().Unix()]. *)
Definition VerifySeal (chain : ChainReader) (now : Z) (g : Genaro Cache DB) (header : Header)
    : result unit * Genaro Cache DB * Header :=
  let blockNumber := big.Uint64 (Number header) in
  if blockNumber =? 0 then (Err errUnknownBlock, g, header)
  else if big.Cmp (Time header) (big.NewInt now) >? 0 then (Err ErrFutureBlock, g, header)
  else
    let epochCheck : result unit :=
      r ← Go.rem64 blockNumber (Epoch (config g));
      if r =? 0 then
        match extra.UnmarshalToExtra header with
        | None => Panic
        | Some extraData =>
            let committeeSize :=
              Go.to_uint64 (Z.of_nat (length (extra.CommitteeRank extraData))
                            / Z.of_nat common.AddressLength) in
            if (committeeSize =? 0) || (committeeSize >? CommitteeMaxSize (config g))
            then Err errInvalidEpochBlock
            else Ok ()
        end
      else Ok () in
    match epochCheck with
    | Panic => (Panic, g, header)
    | Err err => (Err err, g, header)
    | Ok _ =>
        match snapshot chain (GetTurnOfCommiteeByBlockNumber (config g) blockNumber) g with
        | (Panic, g) => (Panic, g, header)
        | (Err err, g) => (Err err, g, header)
        | (Ok snap, g) =>
            match ecrecover header with
            | (Panic, header) => (Panic, g, header)
            | (Err err, header) => (Err err, g, header)
            | (Ok signer, header) =>
                match Committee snap !! signer with
                | None => (Err errUnauthorized, g, header)
                | Some _ =>
                    match GetHeader chain (ParentHash header) (Go.sub64 blockNumber 1) with
                    | None => (Err ErrUnknownAncestor, g, header)
                    | Some parent =>
                        if big.Uint64 (Time header) <? big.Uint64 (Time parent)
                        then (Err errUnknownBlock, g, header)
                        else if inturn snap blockNumber signer then (Ok (), g, header)
                        else
                          let bias := big.Uint64 (Difficulty header) in
                          let delay := Go.to_uint64 (Go.to_int64 (Go.mul64 bias Second)) in
                          if Go.add64 (big.Uint64 (Time parent)) (delay / Second)
                             >? big.Uint64 (Time header)
                          then (Err errInvalidDifficulty, g, header)
                          else (Ok (), g, header)
                    end
                end
            end
        end
    end.

(** [VerifyHeader] *)
Definition VerifyHeader (chain : ChainReader) (now : Z) (g : Genaro Cache DB)
    (header : Header) (seal : bool) : result unit * Genaro Cache DB * Header :=
  VerifySeal chain now g header.

End Engine.

(** ** Committee ranking *)

Section Ranking.
Context `{CandidateOps}.

(** The exact sum of a list of amounts, and of the candidates' stakes. *)
Definition sumZ (l : list Z) : Z := foldr Z.add 0 l.

Definition sumStakes (candidateInfos : list CandidateInfo) : Z :=
  sumZ (Stake <$> candidateInfos).

(** [total += c.Stake] over the candidates. *)
Definition totalStake (candidateInfos : list CandidateInfo) : Z :=
  fold_left (fun total c => Go.add64 total (Stake c)) candidateInfos 0.

(** The second loop of [Rank]: slot [i] of both slices is assigned from
    candidate [i]. *)
Fixpoint rankLoop (total : Z) (i : nat) (candidateInfos : list CandidateInfo)
    (committeeRank : list Address) (proportion : list Z) : list Address * list Z :=
  match candidateInfos with
  | [] => (committeeRank, proportion)
  | c :: rest =>
      rankLoop total (S i) rest
        (<[i := Signer c]> committeeRank)
        (<[i := Go.mul64 (Stake c) (Go.to_uint64 base) / total]> proportion)
  end.

(** [Rank(candidateInfos)] *)
Definition Rank (candidateInfos : list CandidateInfo) : list Address * list Z :=
  let candidateInfos := Sort (Apply candidateInfos) in
  let committeeRank := replicate (length candidateInfos) common.zeroAddress in
  let proportion := replicate (length candidateInfos) 0 in
  let total := totalStake candidateInfos in
  if total =? 0 then (committeeRank, proportion)
  else rankLoop total 0 candidateInfos committeeRank proportion.

End Ranking.

(** ** Reward bookkeeping *)

Definition updateEpochRewards (st : StateDB) : StateDB :=
  let coinrewards := GetBalance st (nameAddress CoinActualRewardsAddress) in
  let storagerewards := GetBalance st (nameAddress StorageActualRewardsAddress) in
  let st := SetBalance st (nameAddress (Pre +:+ CoinActualRewardsAddress)) coinrewards in
  let st := SetBalance st (nameAddress (Pre +:+ StorageActualRewardsAddress)) storagerewards in
  let st := SetBalance st (nameAddress CoinActualRewardsAddress) (big.NewInt 0) in
  let st := SetBalance st (nameAddress StorageActualRewardsAddress) (big.NewInt 0) in
  let st := AddBalance st (nameAddress TotalActualRewardsAddress) coinrewards in
  AddBalance st (nameAddress TotalActualRewardsAddress) storagerewards.

Definition updateEpochYearRewards (st : StateDB) : StateDB :=
  let surplusrewards := GetBalance st (nameAddress SurplusCoinAddress) in
  let st := SetBalance st (nameAddress (Pre +:+ SurplusCoinAddress)) surplusrewards in
  let totalRewards := GetBalance st (nameAddress TotalActualRewardsAddress) in
  let st := SubBalance st (nameAddress SurplusCoinAddress) totalRewards in
  SetBalance st (nameAddress TotalActualRewardsAddress) (big.NewInt 0).

Section SpecialBlock.
Context `{CandidateOps} `{extra.CommitteeCodec}.

Definition updateSpecialBlock (config : GenaroConfig) (header : Header) (st : StateDB)
    : result (Header * StateDB) :=
  let blockNumber := big.Uint64 (Number header) in
  r ← Go.rem64 blockNumber (Epoch config);
  let '(header, st) :=
    if r =? 0 then
      let epochStartBlockNumber := Go.sub64 blockNumber (Epoch config) in
      let epochEndBlockNumber := blockNumber in
      let candidateInfos :=
        GetCandidatesInfoInRange st epochStartBlockNumber epochEndBlockNumber in
      let '(commiteeRank, proportion) := Rank candidateInfos in
      let header :=
        if Go.to_uint64 (Z.of_nat (length candidateInfos)) <=? CommitteeMaxSize config
        then extra.SetHeaderCommitteeRankList header commiteeRank proportion
        else extra.SetHeaderCommitteeRankList header
               (take (Z.to_nat (CommitteeMaxSize config)) commiteeRank)
               (take (Z.to_nat (CommitteeMaxSize config)) proportion) in
      (header, updateEpochRewards st)
    else (header, st) in
  y ← Go.rem64 blockNumber (Go.mul64 epochPerYear (Epoch config));
  if y =? 0 then Ok (header, updateEpochYearRewards st)
  else Ok (header, st).

End SpecialBlock.

(** ** Back-stake maturation *)

Section BackStake.
Context `{EpochHelpers}.

(** The entries that stay on the list at [blockNumber]. *)
Definition pendingAt (config : GenaroConfig) (blockNumber : Z) (back : AlreadyBackStake) : bool :=
  negb (IsBackStakeBlockNumber config (BackBlockNumber back) blockNumber).

(** The loop of [handleAlreadyBackStakeList]: a removed entry leaves the
    index in place ([i--] then [i++]).  [None] when the iteration bound is
    used up. *)
Fixpoint alreadyBackStakeLoop (bound : nat) (config : GenaroConfig) (blockNumber : Z)
    (i : nat) (backlist : list AlreadyBackStake) : option (list AlreadyBackStake) :=
  match bound with
  | O => None
  | S bound =>
      match backlist !! i with
      | None => Some backlist
      | Some back =>
          if IsBackStakeBlockNumber config (BackBlockNumber back) blockNumber then
            alreadyBackStakeLoop bound config blockNumber i
              (take i backlist ++ drop (S i) backlist)
          else alreadyBackStakeLoop bound config blockNumber (S i) backlist
      end
  end.

Definition handleAlreadyBackStakeList (config : GenaroConfig) (header : Header) (st : StateDB)
    : option StateDB :=
  let blockNumber := big.Uint64 (Number header) in
  let backlist := GetAlreadyBackStakeList st in
  backlist ← alreadyBackStakeLoop (S (length backlist)) config blockNumber 0 backlist;
  Some (SetAlreadyBackStakeList st backlist).

(** The loop of [handleApplyBackStakeList]. *)
Fixpoint applyBackStakeLoop (bound : nat) (config : GenaroConfig) (blockNumber : Z)
    (i : nat) (backlist : list AlreadyBackStake) : option (list AlreadyBackStake) :=
  match bound with
  | O => None
  | S bound =>
      match backlist !! i with
      | None => Some backlist
      | Some back =>
          if IsBackStakeBlockNumber config (BackBlockNumber back) blockNumber then
            applyBackStakeLoop bound config blockNumber i
              (take i backlist ++ drop (S i) backlist)
          else applyBackStakeLoop bound config blockNumber (S i) backlist
      end
  end.

Definition handleApplyBackStakeList (config : GenaroConfig) (header : Header) (st : StateDB)
    : option StateDB :=
  let blockNumber := big.Uint64 (Number header) in
  let backlist := GetAlreadyBackStakeList st in
  backlist ← applyBackStakeLoop (S (length backlist)) config blockNumber 0 backlist;
  Some (SetAlreadyBackStakeList st backlist).

End BackStake.

(** ** Reward distribution *)

Definition getCoinCofficient (config : GenaroConfig) (coinrewards surplusRewards : Z) : result Z :=
  if big.Cmp coinrewards (big.NewInt 0) =? 0 then Ok (Go.to_uint64 base)
  else
    let planrewards := big.NewInt 0 in
    (* total coin reward *)
    let planrewards := big.Mul surplusRewards (big.NewInt coinRewardsRatio) in
    planrewards ← big.Div planrewards (big.NewInt base);
    (* per year *)
    planrewards ← big.Div planrewards (big.NewInt ratioPerYear);
    let planrewards := big.Mul planrewards (big.NewInt base) in
    (* per epoch *)
    planrewards ← big.Div planrewards (big.NewInt (Epoch config));
    (* coefficient *)
    let planrewards := big.Mul planrewards (big.NewInt base) in
    planrewards ← big.Div planrewards coinrewards;
    let coinRatio := big.Uint64 planrewards in
    Ok coinRatio.

Definition getStorageCoefficient (config : GenaroConfig) (storagerewards surplusRewards : Z) : result Z :=
  if big.Cmp storagerewards (big.NewInt 0) =? 0 then Ok (Go.to_uint64 base)
  else
    let planrewards := big.NewInt 0 in
    (* total storage reward *)
    let planrewards := big.Mul surplusRewards (big.NewInt storageRewardsRatio) in
    planrewards ← big.Div planrewards (big.NewInt base);
    (* per year *)
    planrewards ← big.Div planrewards (big.NewInt ratioPerYear);
    let planrewards := big.Mul planrewards (big.NewInt base) in
    (* per epoch *)
    planrewards ← big.Div planrewards (big.NewInt (Epoch config));
    (* coefficient *)
    let planrewards := big.Mul planrewards (big.NewInt base) in
    planrewards ← big.Div planrewards storagerewards;
    let storageRatio := big.Uint64 planrewards in
    Ok storageRatio.

(** The surplus baseline: the year-start snapshot on the first block of a
    year, the current pool otherwise. *)
Definition preSurplus (config : GenaroConfig) (st : StateDB) (blockNumber : Z) : result Z :=
  y ← Go.rem64 blockNumber (Go.mul64 (Epoch config) epochPerYear);
  if y =? 0 then Ok (GetBalance st (nameAddress (Pre +:+ SurplusCoinAddress)))
  else Ok (GetBalance st (nameAddress SurplusCoinAddress)).

(** The reward [accumulateInterestRewards] credits to the block author. *)
Definition interestBlockReward (config : GenaroConfig) (st : StateDB)
    (proportion blockNumber : Z) : result Z :=
  let preCoinRewards := GetBalance st (nameAddress (Pre +:+ CoinActualRewardsAddress)) in
  preSurplusRewards ← preSurplus config st blockNumber;
  coefficient ← getCoinCofficient config preCoinRewards preSurplusRewards;
  let surplusRewards := GetBalance st (nameAddress SurplusCoinAddress) in
  (* plan rewards per year *)
  let planRewards := big.Mul surplusRewards (big.NewInt coinRewardsRatio) in
  planRewards ← big.Div planRewards (big.NewInt base);
  (* plan rewards per epoch *)
  planRewards ← big.Div planRewards (big.NewInt epochPerYear);
  (* coefficient adjustment *)
  let planRewards := big.Mul planRewards (big.NewInt coefficient) in
  planRewards ← big.Div planRewards (big.NewInt base);
  (* this address's share *)
  let planRewards := big.Mul planRewards (big.NewInt proportion) in
  planRewards ← big.Div planRewards (big.NewInt base);
  let blockReward := big.NewInt 0 in
  blockReward ← big.Div planRewards (big.NewInt (Epoch config));
  Ok blockReward.

Definition accumulateInterestRewards (config : GenaroConfig) (st : StateDB) (header : Header)
    (proportion blockNumber : Z) : result StateDB :=
  reward ← interestBlockReward config st proportion blockNumber;
  let st := AddBalance st (Coinbase header) reward in
  let st := AddBalance st (nameAddress CoinActualRewardsAddress) reward in
  Ok st.

(** The per-block storage reward before it is apportioned. *)
Definition storageBlockReward (config : GenaroConfig) (st : StateDB) (blockNumber : Z) : result Z :=
  let preStorageRewards := GetBalance st (nameAddress (Pre +:+ StorageActualRewardsAddress)) in
  preSurplusRewards ← preSurplus config st blockNumber;
  coefficient ← getStorageCoefficient config preStorageRewards preSurplusRewards;
  let surplusRewards := GetBalance st (nameAddress SurplusCoinAddress) in
  (* plan rewards per year *)
  let planRewards := big.Mul surplusRewards (big.NewInt storageRewardsRatio) in
  planRewards ← big.Div planRewards (big.NewInt base);
  (* plan rewards per epoch *)
  planRewards ← big.Div planRewards (big.NewInt epochPerYear);
  (* coefficient adjustment *)
  let planRewards := big.Mul planRewards (big.NewInt coefficient) in
  planRewards ← big.Div planRewards (big.NewInt base);
  (* plan rewards per block *)
  let blockReward := big.NewInt 0 in
  blockReward ← big.Div planRewards (big.NewInt (Epoch config));
  Ok blockReward.

(** [contributes[i] = state.GetHeftLastDiff(c, blockNumber)] *)
Definition contributions (st : StateDB) (blockNumber : Z) (cs : list Address) : list Z :=
  (fun c => GetHeftLastDiff st c blockNumber) <$> cs.

(** [total += contributes[i]] *)
Definition totalContribution (contributes : list Z) : Z :=
  fold_left Go.add64 contributes 0.

(** How many times [a] is listed among the candidates. *)
Fixpoint occurrences (a : Address) (cs : list Address) : Z :=
  match cs with
  | [] => 0
  | c :: cs => (if decide (c = a) then 1 else 0) + occurrences a cs
  end.

(** The allocation loop of [accumulateStorageRewards].  [reward.Mul] writes
    the product into [reward]; the [reward.Div] that follows overwrites it
    with the quotient of its own two operands, [blockReward] and [total]. *)
Fixpoint allocateBlockReward (blockReward total : Z) (cs : list Address)
    (contributes : list Z) (st : StateDB) : result StateDB :=
  match cs, contributes with
  | c :: cs, contribute :: contributes =>
      let reward := big.NewInt 0 in
      let reward := big.Mul blockReward (big.NewInt contribute) in
      reward ← big.Div blockReward (big.NewInt total);
      let st := AddBalance st c reward in
      let st := AddBalance st (nameAddress StorageActualRewardsAddress) reward in
      allocateBlockReward blockReward total cs contributes st
  | _, _ => Ok st
  end.

Definition accumulateStorageRewards (config : GenaroConfig) (st : StateDB) (blockNumber : Z)
    : result StateDB :=
  blockReward ← storageBlockReward config st blockNumber;
  (* allocate blockReward *)
  let cs := GetCandidates st in
  let contributes := contributions st blockNumber cs in
  let total := totalContribution contributes in
  if total =? 0 then Ok st
  else allocateBlockReward blockReward total cs contributes st.

(** *** The coefficient as the specification words it

    Written from the specification's sentence, for comparison with
    [getCoinCofficient]: the planned amount is derived from the surplus
    pool as the per-block planned reward is (the ratio's share of the pool,
    divided by the number of epochs per year, then by the epoch length),
    and the coefficient is [base] when nothing was paid and
    [planned * base / paid] otherwise. *)
Definition specPlannedPerEpoch (config : GenaroConfig) (surplus : Z) : Z :=
  surplus * coinRewardsRatio / base / epochPerYear / Epoch config.

Definition specCoinCoefficient (config : GenaroConfig) (actualPaid surplus : Z) : Z :=
  if actualPaid =? 0 then base
  else specPlannedPerEpoch config surplus * base / actualPaid.

(** The planned amount [getCoinCofficient] arrives at before it scales by
    [base] and divides by the amount paid. *)
Definition coinPlannedPerEpoch (config : GenaroConfig) (surplus : Z) : Z :=
  surplus * coinRewardsRatio / base / ratioPerYear * base / Epoch config.

(** ** Test doubles for the collaborators

    Small executable instances of the collaborator interfaces, used to run
    the engine on concrete headers and ledgers. *)

Module doubles.

(** A 32-byte digest: the input, zero-extended or cropped. *)
Definition digest32 (b : list byte) : list byte :=
  take 32 (b ++ replicate 32 x00).

Definition itemBytes (i : rlpItem) : list byte :=
  match i with
  | rlpBytes b => b
  | rlpInt n => [byte_of_N (Z.to_N (n mod 256))]
  end.

#[local] Instance crypto : Crypto := {|
  Keccak256 := digest32;
  rlpEncode := fun items => concat (itemBytes <$> items);
  Ecrecover := fun hash sig =>
    if decide (sig = replicate 65 x00) then inl (errCollaborator 1)
    else inr (take 65 (sig ++ hash))
|}.

#[local] Instance codec : extra.CommitteeCodec := {|
  extra.rankBytes := fun payload => payload;
  extra.proportions := fun _ => [];
  extra.GetHeaderCommitteeRankList := fun _ => ([], []);
  extra.SetHeaderCommitteeRankList := fun h _ _ => h
|}.

#[local] Instance helpers : EpochHelpers := {|
  GetTurnOfCommiteeByBlockNumber := fun cfg n => n / Epoch cfg;
  GetFirstBlockNumberOfEpoch := fun cfg e => e * Epoch cfg;
  GetLastBlockNumberOfEpoch := fun cfg e => (e + 1) * Epoch cfg - 1;
  IsBackStakeBlockNumber := fun cfg back n => back + backStakePeriod * Epoch cfg <=? n;
  inturn := fun snap n a => false;
  headerHash := fun h => digest32 (Extra h)
|}.

#[local] Instance snapshots : SnapshotStore (gmap Z CommitteeSnapshot) (list CommitteeSnapshot) := {|
  recentsGet := fun c k => (c !! k, c);
  recentsAdd := fun c k s => <[k := s]> c;
  store := fun s d => (None, s :: d)
|}.

(** Insertion sort by descending stake. *)
Fixpoint insertByStake (c : CandidateInfo) (l : list CandidateInfo) : list CandidateInfo :=
  match l with
  | [] => [c]
  | d :: rest => if Stake d <? Stake c then c :: d :: rest else d :: insertByStake c rest
  end.

Definition sortByStake (l : list CandidateInfo) : list CandidateInfo :=
  foldr insertByStake [] l.

#[local] Instance ops : CandidateOps := {|
  Apply := fun l => l;
  Sort := sortByStake
|}.

Definition cfg : GenaroConfig :=
  {| Epoch := 10; BlockInterval := 10; ElectionPeriod := 1; ValidPeriod := 1;
     CurrencyRates := 10; CommitteeMaxSize := 5 |}.

Definition mkHeader (number time : Z) (payload : list byte) : Header :=
  {| ParentHash := common.zeroHash; UncleHash := common.zeroHash;
     Coinbase := common.zeroAddress; Root := common.zeroHash;
     TxHash := common.zeroHash; ReceiptHash := common.zeroHash; Bloom := [];
     Difficulty := 0; Number := number; GasLimit := 0; GasUsed := 0;
     Time := time; Extra := payload; MixDigest := common.zeroHash;
     Nonce := zeroNonce |}.

(** A payload holding a signature and nothing behind it. *)
Definition signedPayload : list byte := replicate 65 x2a.

(** A chain whose genesis and parent lookups both answer with a header
    stamped [parentTime]. *)
Definition chain (parentTime : Z) : ChainReader :=
  {| GetHeader := fun _ n => Some (mkHeader n parentTime signedPayload);
     GetHeaderByNumber := fun n => Some (mkHeader n parentTime signedPayload);
     ChainGenaroConfig := cfg |}.

Definition engine : Genaro (gmap Z CommitteeSnapshot) (list CommitteeSnapshot) :=
  New cfg [] ∅.

Definition alice : Address := nameAddress "alice".
Definition bob : Address := nameAddress "bob".

Definition carol : Address := nameAddress "carol".

Definition candidate (a : Address) (stake : Z) : CandidateInfo :=
  {| Signer := a; Heft := 0; Stake := stake |}.

(** Three candidates staking 60, 30 and 10. *)
Definition trio : list CandidateInfo :=
  [candidate bob 30; candidate alice 60; candidate carol 10].

(** The snapshot of the committee ranked from [trio]. *)
Definition trioSnapshot : CommitteeSnapshot :=
  let '(committeeRank, proportion) := Rank trio in
  {| snapConfig := cfg; WriteBlockNumber := 0; WriteBlockHash := common.zeroHash;
     EpochNumber := 0; CommitteeRank := committeeRank;
     CommitteeSize := Z.of_nat (length committeeRank);
     Committee := committeeMap committeeRank proportion |}.

Definition ledger (bal : gmap Address Z) (cands : list Address) (heft : Address -> Z)
    : StateDB :=
  {| balances := bal; candidates := cands;
     heftLastDiff := fun c _ => heft c;
     candidatesInfoInRange := fun _ _ => [];
     alreadyBackStakeList := [] |}.

(** A ledger with 9600000 in the surplus pool and two candidates: alice
    contributed a heft of 3 over the window, bob none. *)
Definition storageLedger : StateDB :=
  ledger {[ nameAddress SurplusCoinAddress := 9600000 ]} [alice; bob]
         (fun c => if decide (c = alice) then 3 else 0).

End doubles.

(** ** Sealing, the difficulty query and finalisation *)

(** [SignerFn]: the signing callback, returning the signature or an
    error. *)
Definition SignerFn : Type := Address -> list byte -> error + list byte.

(** [wiggleTime], in nanoseconds. *)
Definition wiggleTime : Z := 500 * 1000000.

(** [Authorize]: the engine with its signer replaced, and the callback
    that goes with it. *)
Definition Authorize {Cache DB : Type} (signer : Address) (signFn : SignerFn)
    (g : Genaro Cache DB) : Genaro Cache DB * SignerFn :=
  ({| config := config g; db := db g; recents := recents g; signer := signer |}, signFn).

(** Two engine states with the same config and the same signer. *)
Definition sameIdentity {Cache DB : Type} (g g1 : Genaro Cache DB) : Prop :=
  config g1 = config g /\ signer g1 = signer g.

(** The delay [Seal] waits, in nanoseconds; [jitter] is the draw of
    [rand.Int63n(int64(wiggleTime))]. *)
Definition sealDelay (snap : CommitteeSnapshot) (header : Header) (jitter : Z) : Z :=
  let reverseDifficult :=
    Go.add64 (Go.sub64 (CommitteeSize snap) (big.Uint64 (Difficulty header))) 1 in
  let delay := Go.to_int64 (Go.mul64 reverseDifficult (Go.to_uint64 Second)) in
  Go.to_int64 (delay + Go.to_int64 jitter).

(** What [types.NewBlock] is handed and the collaborators [Finalize]
    calls on the way. *)
Record Block (Tx Receipt : Type) : Type := {
  blockHeader : Header;
  blockTxs : list Tx;
  blockUncles : list Header;
  blockReceipts : list Receipt
}.

Arguments blockHeader {Tx Receipt} b.
Arguments blockTxs {Tx Receipt} b.
Arguments blockUncles {Tx Receipt} b.
Arguments blockReceipts {Tx Receipt} b.

Class BlockAssembly : Type := {
  IsEIP158 : Z -> bool;
  IntermediateRoot : StateDB -> bool -> Hash;
  CalcUncleHash : list Header -> Hash
}.

Section Sealing.
Context {Cache DB : Type}.
Context `{Crypto} `{extra.CommitteeCodec} `{EpochHelpers} `{SnapshotStore Cache DB}.

(** [Seal]; the block is its header, [signFn] is the engine's callback,
    [jitter] the random draw, and [stopped delay] tells whether the stop
    channel fires before the timer of [delay] nanoseconds.  [Ok None] is
    the return of no block and no error. *)
Definition Seal (chain : ChainReader) (signFn : SignerFn) (jitter : Z) (stopped : Z -> bool)
    (g : Genaro Cache DB) (header : Header) : result (option Header) * Genaro Cache DB :=
  let number := big.Uint64 (Number header) in
  if number =? 0 then (Err errUnknownBlock, g)
  else
    let signer := signer g in
    match snapshot chain (GetTurnOfCommiteeByBlockNumber (config g) number) g with
    | (Panic, g) => (Panic, g)
    | (Err err, g) => (Err err, g)
    | (Ok snap, g) =>
        let delay := sealDelay snap header jitter in
        if stopped delay then (Ok None, g)
        else
          match signFn signer (sigHash header) with
          | inl err => (Err err, g)
          | inr sighash => (Ok (Some (extra.SetHeaderSignature header sighash)), g)
          end
    end.

(** The method [(g *Genaro).CalcDifficulty]: [None] is the [nil] it
    returns when the snapshot cannot be had. *)
Definition Genaro_CalcDifficulty (chain : ChainReader) (time : Z) (g : Genaro Cache DB)
    (parent : Header) : result (option Z) * Genaro Cache DB :=
  let blockNumber := Go.add64 (big.Uint64 (Number parent)) 1 in
  let dependEpoch := GetTurnOfCommiteeByBlockNumber (config g) blockNumber in
  match snapshot chain dependEpoch g with
  | (Panic, g) => (Panic, g)
  | (Err _, g) => (Ok None, g)
  | (Ok snap, g) => (Ok (Some (CalcDifficulty snap (signer g) blockNumber)), g)
  end.

End Sealing.

Section Finalizing.
Context {Cache DB Tx Receipt : Type}.
Context `{extra.CommitteeCodec} `{EpochHelpers} `{SnapshotStore Cache DB}.
Context `{CandidateOps} `{BlockAssembly}.

(** [Finalize]; the ledger and the engine are returned as the call leaves
    them, also when it fails. *)
Definition Finalize (chain : ChainReader) (g : Genaro Cache DB) (header : Header)
    (st : StateDB) (txs : list Tx) (uncles : list Header) (receipts : list Receipt)
    : result (Block Tx Receipt) * Genaro Cache DB * StateDB :=
  let blockNumber := big.Uint64 (Number header) in
  match updateSpecialBlock (config g) header st with
  | Panic => (Panic, g, st)
  | Err err => (Err err, g, st)
  | Ok (header, st) =>
      match snapshot chain
              (GetTurnOfCommiteeByBlockNumber (config g) (big.Uint64 (Number header))) g with
      | (Panic, g) => (Panic, g, st)
      | (Err err, g) => (Err err, g, st)
      | (Ok snap, g) =>
          let proportion := default 0 (Committee snap !! Coinbase header) in
          match accumulateInterestRewards (config g) st header proportion blockNumber with
          | Panic => (Panic, g, st)
          | Err err => (Err err, g, st)
          | Ok st =>
              match accumulateStorageRewards (config g) st blockNumber with
              | Panic => (Panic, g, st)
              | Err err => (Err err, g, st)
              | Ok st =>
                  match handleAlreadyBackStakeList (config g) header st with
                  | None => (Panic, g, st)
                  | Some st =>
                      let header :=
                        set_Root header (IntermediateRoot st (IsEIP158 (Number header))) in
                      let header := set_UncleHash header (CalcUncleHash []) in
                      (Ok {| blockHeader := header; blockTxs := txs;
                             blockUncles := []; blockReceipts := receipts |}, g, st)
                  end
              end
          end
      end
  end.

End Finalizing.

(** ** Balance reads that share the ledger's cell

    [accumulateInterestRewards] and [accumulateStorageRewards] run their
    arithmetic in place on the [big.Int] that [GetBalance] returned for the
    surplus pool, and the reward they go on to credit is that same
    [big.Int].  What this does to the ledger is decided by [StateDB],
    which is not among the sources.  When a read hands out a copy
    ([shared = false]) nothing is written.  When a read hands out the
    account's own cell ([shared = true]) the pool's account is left
    holding the last value computed in it, the per-block reward, before
    anything is credited; a pool without an account reads as zero, which
    the arithmetic leaves at zero. *)
Definition writeThrough (shared : bool) (st : StateDB) (a : Address) (v : Z) : StateDB :=
  if shared then
    match balances st !! a with
    | Some _ => SetBalance st a v
    | None => st
    end
  else st.

(** [accumulateInterestRewards] on either kind of ledger. *)
Definition accumulateInterestRewardsOn (shared : bool) (config : GenaroConfig) (st : StateDB)
    (header : Header) (proportion blockNumber : Z) : result StateDB :=
  reward ← interestBlockReward config st proportion blockNumber;
  let st := writeThrough shared st (nameAddress SurplusCoinAddress) reward in
  let st := AddBalance st (Coinbase header) reward in
  let st := AddBalance st (nameAddress CoinActualRewardsAddress) reward in
  Ok st.

(** [accumulateStorageRewards] on either kind of ledger; the in-place
    arithmetic comes before the test of the total contribution. *)
Definition accumulateStorageRewardsOn (shared : bool) (config : GenaroConfig) (st : StateDB)
    (blockNumber : Z) : result StateDB :=
  blockReward ← storageBlockReward config st blockNumber;
  let st := writeThrough shared st (nameAddress SurplusCoinAddress) blockReward in
  (* allocate blockReward *)
  let cs := GetCandidates st in
  let contributes := contributions st blockNumber cs in
  let total := totalContribution contributes in
  if total =? 0 then Ok st
  else allocateBlockReward blockReward total cs contributes st.

(** ** The index log ([common/levlog]) *)

Module levlog.

(** [byte(v)], and the value of a byte. *)
Definition byteOf (v : Z) : byte := byte_of_N (Z.to_N (v mod 256)).
Definition byteVal (b : byte) : Z := Z.of_N (Byte.to_N b).

(** The [n] low bytes of [v], most significant first, as
    [binary.BigEndian.PutUint64] lays out 8 of them. *)
Fixpoint bigEndianPut (n : nat) (v : Z) : list byte :=
  match n with
  | O => []
  | S k => byteOf (v / 256 ^ Z.of_nat k) :: bigEndianPut k v
  end.

(** The number a byte string spells, most significant byte first. *)
Definition bigEndianValue (b : list byte) : Z :=
  fold_left (fun acc x => acc * 256 + byteVal x) b 0.

(** [binary.BigEndian.Uint64] reads the first 8 bytes and panics when
    there are fewer. *)
Definition BigEndianUint64 (b : list byte) : result Z :=
  if decide (length b < 8)%nat then Panic else Ok (bigEndianValue (take 8 b)).

Definition NOW_INDEX_B : list byte := list_byte_of_string "NOW_INDEX".
Definition FIR_INDEX_B : list byte := list_byte_of_string "FIR_INDEX".

Definition Int64ToBytes (i : Z) : list byte :=
  let buf := replicate 8 x00 in
  Go.copy buf (bigEndianPut 8 (Go.to_uint64 i)).

Definition BytesToInt64 (buf : list byte) : result Z :=
  v ← BigEndianUint64 buf; Ok (Go.to_int64 v).

(** What [DB.Get] answers: the value, [ErrNotFound], or another error. *)
Inductive getResult : Type :=
| Found (val : list byte)
| NotFound
| GetError (err : error).

(** The key-value store behind the log; the error of [Put] is dropped by
    the caller, so [dbPut] only returns the store. *)
Class LevelDB (D : Type) : Type := {
  dbGet : D -> list byte -> getResult;
  dbPut : D -> list byte -> list byte -> D
}.

Record Levlog (D : Type) : Type := {
  Dbdir : string;
  DB : D;
  FirstIndex : Z;
  NowIndex : Z
}.

Arguments Dbdir {D} l.
Arguments DB {D} l.
Arguments FirstIndex {D} l.
Arguments NowIndex {D} l.

Definition set_DB {D : Type} (l : Levlog D) (d : D) : Levlog D :=
  {| Dbdir := Dbdir l; DB := d; FirstIndex := FirstIndex l; NowIndex := NowIndex l |}.

Definition getNowIndex {D : Type} `{LevelDB D} (l : Levlog D) : result Z * Levlog D :=
  let nowIndex := 0 in
  match dbGet (DB l) NOW_INDEX_B with
  | GetError err => (Err err, l)
  | Found val => (nowIndex ← BytesToInt64 val; Ok nowIndex, l)
  | NotFound =>
      let nowIndex := 0 in
      (Ok nowIndex, set_DB l (dbPut (DB l) NOW_INDEX_B (Int64ToBytes nowIndex)))
  end.

End levlog.

(** ** Fixtures

    A committee of one, whose member is the address the test crypto
    recovers from the test signature, and a map-backed key-value store. *)

Module fixtures.

Definition solo : Address := replicate 20 x2a.

#[local] Instance codec : extra.CommitteeCodec := {|
  extra.rankBytes := fun payload => payload;
  extra.proportions := fun _ => [];
  extra.GetHeaderCommitteeRankList := fun _ => ([solo], [10000]);
  extra.SetHeaderCommitteeRankList := fun h _ _ => h
|}.

Definition engine : Genaro (gmap Z CommitteeSnapshot) (list CommitteeSnapshot) :=
  (Authorize solo (fun _ _ => inr doubles.signedPayload)
     (New doubles.cfg [] ∅)).1.

(** A snapshot store whose durable half always fails. *)
#[local] Instance failingStore
    : SnapshotStore (gmap Z CommitteeSnapshot) (list CommitteeSnapshot) := {|
  recentsGet := fun c k => (c !! k, c);
  recentsAdd := fun c k s => <[k := s]> c;
  store := fun s d => (Some (errCollaborator 7), d)
|}.

#[local] Instance assembly : BlockAssembly := {|
  IsEIP158 := fun _ => true;
  IntermediateRoot := fun _ _ => common.zeroHash;
  CalcUncleHash := fun _ => common.zeroHash
|}.

#[local] Instance mapDB : levlog.LevelDB (gmap (list byte) (list byte)) := {|
  levlog.dbGet := fun d k =>
    match d !! k with
    | Some v => levlog.Found v
    | None => levlog.NotFound
    end;
  levlog.dbPut := fun d k v => <[k := v]> d
|}.

Definition emptyLog : levlog.Levlog (gmap (list byte) (list byte)) :=
  {| levlog.Dbdir := "log"; levlog.DB := ∅; levlog.FirstIndex := 0; levlog.NowIndex := 0 |}.

End fixtures.

(** * Properties *)

(** ** Machine arithmetic *)

Lemma to_uint64_small (x : Z) : 0 <= x < 2 ^ 64 -> Go.to_uint64 x = x.
Proof. intros Hx. unfold Go.to_uint64. by apply Z.mod_small. Qed.

Lemma to_uint64_range (x : Z) : 0 <= Go.to_uint64 x < 2 ^ 64.
Proof. unfold Go.to_uint64. apply Z.mod_pos_bound. lia. Qed.

Lemma to_int64_small (x : Z) : - 2 ^ 63 <= x < 2 ^ 63 -> Go.to_int64 x = x.
Proof.
  intros Hx. unfold Go.to_int64.
  rewrite Z.mod_small; lia.
Qed.

Lemma big_Int64_exact (x : Z) : - 2 ^ 63 <= x < 2 ^ 63 -> big.Int64 x = x.
Proof.
  intros Hx. unfold big.Int64.
  destruct (Z.ltb_spec x 0) as [Hneg|Hpos].
  - rewrite Z.abs_neq by lia.
    rewrite (Z.mod_small (- x)) by lia.
    destruct (Z.eq_dec x (- 2 ^ 63)) as [->|Hne]; [done|].
    rewrite (to_int64_small (- x)) by lia.
    rewrite to_int64_small; lia.
  - rewrite Z.abs_eq by lia.
    rewrite (Z.mod_small x) by lia.
    apply to_int64_small. lia.
Qed.

Lemma big_Uint64_small (x : Z) : 0 <= x < 2 ^ 64 -> big.Uint64 x = x.
Proof.
  intros Hx. unfold big.Uint64.
  rewrite Z.abs_eq by lia. by apply Z.mod_small.
Qed.

Lemma big_Div_pos (x y : Z) : 0 < y -> big.Div x y = Ok (x / y).
Proof.
  intros Hy. unfold big.Div.
  destruct (Z.eqb_spec y 0); [lia|].
  destruct (Z.ltb_spec 0 y); [done|lia].
Qed.

Lemma big_NewInt_small (x : Z) : - 2 ^ 63 <= x < 2 ^ 63 -> big.NewInt x = x.
Proof. apply to_int64_small. Qed.

(** ** The signature codec *)

Lemma copy_same_length {A : Type} (dst src : list A) :
  length dst = length src -> Go.copy dst src = src.
Proof.
  intros Hlen. unfold Go.copy.
  rewrite take_ge, drop_ge by lia. apply app_nil_r.
Qed.

Lemma header_set_Extra_id (h : Header) (e : list byte) :
  e = Extra h -> set_Extra h e = h.
Proof. intros ->. by destruct h. Qed.

Lemma set_Extra_twice (h : Header) (e1 e2 : list byte) :
  set_Extra (set_Extra h e1) e2 = set_Extra h e2.
Proof. done. Qed.

Section CodecFacts.
Context `{extra.CommitteeCodec}.

Lemma UnmarshalToExtra_Some (header : Header) (e : extra.ExtraData) :
  extra.UnmarshalToExtra header = Some e ->
  (extra.SignatureLength <= length (Extra header))%nat /\
  extra.Signature e = take extra.SignatureLength (Extra header).
Proof.
  unfold extra.UnmarshalToExtra. intros Hdec.
  destruct (decide (length (Extra header) < extra.SignatureLength)%nat); [done|].
  inversion Hdec; subst; simpl. split; [lia|done].
Qed.

Lemma signature_region_length (e : list byte) :
  length (take extra.SignatureLength (e ++ replicate extra.SignatureLength x00))
  = extra.SignatureLength.
Proof.
  rewrite length_take, length_app, length_replicate. lia.
Qed.

(** Writing a full-length signature replaces the region and nothing else. *)
Lemma SetHeaderSignature_Extra (header : Header) (signature : list byte) :
  length signature = extra.SignatureLength ->
  Extra (extra.SetHeaderSignature header signature)
  = signature ++ drop extra.SignatureLength (Extra header).
Proof.
  intros Hlen. unfold extra.SetHeaderSignature. simpl.
  rewrite copy_same_length; [done|].
  by rewrite signature_region_length.
Qed.

(** Clearing and then restoring the decoded signature gives the header
    back. *)
Lemma SetHeaderSignature_Reset (header : Header) (e : extra.ExtraData) :
  extra.UnmarshalToExtra header = Some e ->
  extra.SetHeaderSignature (extra.ResetHeaderSignature header) (extra.Signature e) = header.
Proof.
  intros Hdec. apply UnmarshalToExtra_Some in Hdec as [Hlen Hsig].
  assert (Hsiglen : length (extra.Signature e) = extra.SignatureLength).
  { rewrite Hsig, length_take. lia. }
  assert (Hreset : Extra (extra.ResetHeaderSignature header)
            = replicate extra.SignatureLength x00 ++ drop extra.SignatureLength (Extra header)).
  { apply SetHeaderSignature_Extra, length_replicate. }
  unfold extra.SetHeaderSignature at 1.
  rewrite copy_same_length by (by rewrite signature_region_length).
  rewrite Hreset, drop_app_length' by (by rewrite length_replicate).
  rewrite Hsig, take_drop.
  unfold extra.ResetHeaderSignature, extra.SetHeaderSignature.
  rewrite set_Extra_twice. by apply header_set_Extra_id.
Qed.

End CodecFacts.

(** ** Signature recovery leaves the header as it found it *)

(** C10: for a header whose extension payload decodes, [ecrecover] hands
    the header back unchanged, on the path where recovery fails as on the
    path where it succeeds: the signature cleared for hashing is written
    back byte for byte before either return. *)
Theorem ecrecover_restores_header `{Crypto} `{extra.CommitteeCodec}
    (header : Header) (e : extra.ExtraData) :
  extra.UnmarshalToExtra header = Some e ->
  (ecrecover header).2 = header /\
  (forall err,
     Ecrecover (sigHash (extra.ResetHeaderSignature header)) (extra.Signature e) = inl err ->
     ecrecover header = (Err err, header)) /\
  (forall pubkey,
     Ecrecover (sigHash (extra.ResetHeaderSignature header)) (extra.Signature e) = inr pubkey ->
     (1 <= length pubkey)%nat ->
     (12 <= length (Keccak256 (drop 1 pubkey)))%nat ->
     ecrecover header
     = (Ok (Go.copy common.zeroAddress (drop 12 (Keccak256 (drop 1 pubkey)))), header)).
Proof.
  intros Hdec.
  pose proof (SetHeaderSignature_Reset header e Hdec) as Hback.
  unfold ecrecover. rewrite Hdec, Hback.
  split; [|split].
  - destruct (Ecrecover _ _) as [err|pubkey]; [done|].
    destruct (decide (length pubkey < 1)%nat); [done|].
    by destruct (decide (length (Keccak256 (drop 1 pubkey)) < 12)%nat).
  - by intros err ->.
  - intros pubkey -> Hpub Hdigest.
    destruct (decide (length pubkey < 1)%nat); [lia|].
    destruct (decide (length (Keccak256 (drop 1 pubkey)) < 12)%nat); [lia|done].
Qed.

Lemma ecrecover_restores_header_witness :
  let header := doubles.mkHeader 7 100 doubles.signedPayload in
  @extra.UnmarshalToExtra doubles.codec header
  = Some {| extra.Signature := doubles.signedPayload;
            extra.CommitteeRank := []; extra.Proportion := [] |} /\
  (@ecrecover doubles.crypto doubles.codec header).2 = header.
Proof.
  split; [reflexivity|].
  eapply (@ecrecover_restores_header doubles.crypto doubles.codec).
  reflexivity.
Defined.

(** ** The ledger *)

Lemma GetBalance_SetBalance_eq (st : StateDB) (a : Address) (v : Z) :
  GetBalance (SetBalance st a v) a = v.
Proof. unfold GetBalance, SetBalance. simpl. by rewrite lookup_insert_eq. Qed.

Lemma GetBalance_SetBalance_ne (st : StateDB) (a b : Address) (v : Z) :
  a <> b -> GetBalance (SetBalance st a v) b = GetBalance st b.
Proof. intros Hne. unfold GetBalance, SetBalance. simpl. by rewrite lookup_insert_ne. Qed.

Lemma GetBalance_AddBalance_eq (st : StateDB) (a : Address) (v : Z) :
  GetBalance (AddBalance st a v) a = GetBalance st a + v.
Proof. unfold AddBalance. by rewrite GetBalance_SetBalance_eq. Qed.

Lemma GetBalance_AddBalance_ne (st : StateDB) (a b : Address) (v : Z) :
  a <> b -> GetBalance (AddBalance st a v) b = GetBalance st b.
Proof. intros Hne. unfold AddBalance. by rewrite GetBalance_SetBalance_ne. Qed.

Lemma GetBalance_SubBalance_eq (st : StateDB) (a : Address) (v : Z) :
  GetBalance (SubBalance st a v) a = GetBalance st a - v.
Proof. unfold SubBalance. by rewrite GetBalance_SetBalance_eq. Qed.

Lemma GetBalance_SubBalance_ne (st : StateDB) (a b : Address) (v : Z) :
  a <> b -> GetBalance (SubBalance st a v) b = GetBalance st b.
Proof. intros Hne. unfold SubBalance. by rewrite GetBalance_SetBalance_ne. Qed.

(** The counters' names resolve to pairwise different accounts. *)
Lemma ledger_names_distinct :
  NoDup (nameAddress <$> [SurplusCoinAddress; CoinActualRewardsAddress;
                          StorageActualRewardsAddress; TotalActualRewardsAddress;
                          Pre +:+ SurplusCoinAddress;
                          Pre +:+ CoinActualRewardsAddress;
                          Pre +:+ StorageActualRewardsAddress]).
Proof. apply (bool_decide_unpack _). by vm_compute. Qed.

Lemma surplus_ne_pre : nameAddress (Pre +:+ SurplusCoinAddress) <> nameAddress SurplusCoinAddress.
Proof. by vm_compute. Qed.

Lemma surplus_ne_total : nameAddress SurplusCoinAddress <> nameAddress TotalActualRewardsAddress.
Proof. by vm_compute. Qed.

Lemma pre_ne_total :
  nameAddress (Pre +:+ SurplusCoinAddress) <> nameAddress TotalActualRewardsAddress.
Proof. by vm_compute. Qed.

(** ** Year boundary *)

(** C8: [updateEpochYearRewards] copies the surplus pool as it was into the
    previous-year snapshot, leaves the pool at exactly the old surplus
    minus the total rewards paid since the last reset, and resets the
    total-rewards-paid accumulator to zero. *)
Theorem updateEpochYearRewards_exact (st : StateDB) :
  let oldSurplus := GetBalance st (nameAddress SurplusCoinAddress) in
  let totalPaid := GetBalance st (nameAddress TotalActualRewardsAddress) in
  let st' := updateEpochYearRewards st in
  GetBalance st' (nameAddress (Pre +:+ SurplusCoinAddress)) = oldSurplus /\
  GetBalance st' (nameAddress SurplusCoinAddress) = oldSurplus - totalPaid /\
  GetBalance st' (nameAddress TotalActualRewardsAddress) = 0.
Proof.
  pose proof surplus_ne_pre as Hsp.
  pose proof surplus_ne_total as Hst.
  pose proof pre_ne_total as Hpt.
  intros oldSurplus totalPaid st'. subst oldSurplus totalPaid st'.
  unfold updateEpochYearRewards.
  repeat split.
  - rewrite GetBalance_SetBalance_ne by congruence.
    rewrite GetBalance_SubBalance_ne by congruence.
    by rewrite GetBalance_SetBalance_eq.
  - rewrite GetBalance_SetBalance_ne by congruence.
    rewrite GetBalance_SubBalance_eq.
    by rewrite !GetBalance_SetBalance_ne by congruence.
  - by rewrite GetBalance_SetBalance_eq.
Qed.

(** ** Back-stake maturation *)

Section BackStakeFacts.
Context `{EpochHelpers}.

(** With a bound above the work left, the loop ends and has removed
    exactly the matured entries at or after index [i]. *)
Lemma alreadyBackStakeLoop_filter (config : GenaroConfig) (blockNumber : Z) (bound : nat) :
  forall (i : nat) (backlist : list AlreadyBackStake),
    (i <= length backlist)%nat ->
    (length backlist - i < bound)%nat ->
    alreadyBackStakeLoop bound config blockNumber i backlist
    = Some (take i backlist ++ List.filter (pendingAt config blockNumber) (drop i backlist)).
Proof.
  induction bound as [|bound IH]; intros i backlist Hi Hbound; [lia|].
  simpl. destruct (backlist !! i) as [back|] eqn:Hback.
  - pose proof (lookup_lt_Some _ _ _ Hback) as Hlt.
    rewrite (drop_S _ _ _ Hback). simpl. unfold pendingAt at 1.
    destruct (IsBackStakeBlockNumber config (BackBlockNumber back) blockNumber); simpl.
    + rewrite IH.
      * rewrite take_app_length', drop_app_length'; [done| |]; rewrite length_take; lia.
      * rewrite length_app, length_take, length_drop. lia.
      * rewrite length_app, length_take, length_drop. lia.
    + rewrite IH by lia.
      by rewrite (take_S_r _ _ _ Hback), <- app_assoc.
  - apply lookup_ge_None in Hback.
    rewrite take_ge, drop_ge by lia. simpl. by rewrite app_nil_r.
Qed.

Lemma backStakeLoops_agree (bound : nat) (config : GenaroConfig) (blockNumber : Z)
    (i : nat) (backlist : list AlreadyBackStake) :
  applyBackStakeLoop bound config blockNumber i backlist
  = alreadyBackStakeLoop bound config blockNumber i backlist.
Proof.
  revert i backlist. induction bound as [|bound IH]; intros i backlist; [done|].
  simpl. destruct (backlist !! i) as [back|]; [|done].
  by destruct (IsBackStakeBlockNumber config (BackBlockNumber back) blockNumber).
Qed.

Lemma handleAlreadyBackStakeList_filter (config : GenaroConfig) (header : Header) (st : StateDB) :
  handleAlreadyBackStakeList config header st
  = Some (SetAlreadyBackStakeList st
            (List.filter (pendingAt config (big.Uint64 (Number header)))
                         (GetAlreadyBackStakeList st))).
Proof.
  unfold handleAlreadyBackStakeList.
  rewrite alreadyBackStakeLoop_filter by lia.
  by rewrite take_0, drop_0.
Qed.

End BackStakeFacts.

(** C9: for every config, header and ledger, [handleAlreadyBackStakeList]
    and [handleApplyBackStakeList] return the same ledger, whose pending
    withdrawal list is the old one without the matured entries: the two
    operations are extensionally equal. *)
Theorem handleBackStakeLists_equal `{EpochHelpers}
    (config : GenaroConfig) (header : Header) (st : StateDB) :
  handleApplyBackStakeList config header st = handleAlreadyBackStakeList config header st /\
  handleAlreadyBackStakeList config header st
  = Some (SetAlreadyBackStakeList st
            (List.filter (pendingAt config (big.Uint64 (Number header)))
                         (GetAlreadyBackStakeList st))).
Proof.
  split; [|apply handleAlreadyBackStakeList_filter].
  unfold handleApplyBackStakeList, handleAlreadyBackStakeList.
  by rewrite backStakeLoops_agree.
Qed.

(** ** Difficulty *)

Lemma rankIndexFrom_absent (i : Z) (rank : list Address) (addr : Address) :
  addr ∉ rank -> rankIndexFrom i rank addr = -1.
Proof.
  revert i. induction rank as [|a rest IH]; intros i Hnotin; [done|].
  simpl. apply not_elem_of_cons in Hnotin as [Hne Hrest].
  destruct (decide (a = addr)); [congruence|]. by apply IH.
Qed.

Lemma rankIndexFrom_present (i : Z) (rank : list Address) (addr : Address) :
  addr ∈ rank ->
  i <= rankIndexFrom i rank addr < i + Z.of_nat (length rank) /\
  rank !! Z.to_nat (rankIndexFrom i rank addr - i) = Some addr.
Proof.
  revert i. induction rank as [|a rest IH]; intros i Hin.
  - by apply elem_of_nil in Hin.
  - simpl. destruct (decide (a = addr)) as [->|Hne].
    + split; [lia|]. by replace (i - i) with 0 by lia.
    + apply elem_of_cons in Hin as [Heq|Hin]; [congruence|].
      destruct (IH (i + 1) Hin) as [Hrange Hlook]. split; [lia|].
      replace (rankIndexFrom (i + 1) rest addr - i)
        with (Z.succ (rankIndexFrom (i + 1) rest addr - (i + 1))) by lia.
      rewrite Z2Nat.inj_succ by lia. done.
Qed.

Lemma CalcDifficulty_absent (snap : CommitteeSnapshot) (addr : Address) (blockNumber : Z) :
  addr ∉ CommitteeRank snap -> CalcDifficulty snap addr blockNumber = 0.
Proof.
  intros Hnotin. unfold CalcDifficulty, getCurrentRankIndex.
  by rewrite rankIndexFrom_absent.
Qed.

Lemma CalcDifficulty_present (snap : CommitteeSnapshot) (addr : Address) (blockNumber : Z) :
  Z.of_nat (length (CommitteeRank snap)) <= CommitteeSize snap < 2 ^ 64 ->
  addr ∈ CommitteeRank snap ->
  0 <= getCurrentRankIndex snap addr < Z.of_nat (length (CommitteeRank snap)) /\
  CommitteeRank snap !! Z.to_nat (getCurrentRankIndex snap addr) = Some addr /\
  CalcDifficulty snap addr blockNumber = CommitteeSize snap - getCurrentRankIndex snap addr.
Proof.
  intros Hsize Hin. unfold CalcDifficulty, getCurrentRankIndex.
  destruct (rankIndexFrom_present 0 _ _ Hin) as [Hrange Hlook].
  rewrite Z.sub_0_r in Hlook.
  split; [lia|]. split; [done|].
  destruct (Z.ltb_spec (rankIndexFrom 0 (CommitteeRank snap) addr) 0); [lia|].
  unfold Go.sub64.
  rewrite (to_uint64_small (rankIndexFrom 0 (CommitteeRank snap) addr)) by lia.
  rewrite !to_uint64_small; [done|lia|].
  rewrite to_uint64_small; lia.
Qed.

Lemma rankIndexFrom_NoDup (i : Z) (rank : list Address) (n : nat) (addr : Address) :
  NoDup rank -> rank !! n = Some addr -> rankIndexFrom i rank addr = i + Z.of_nat n.
Proof.
  intros Hnodup. revert i n. induction Hnodup as [|a rest Hnotin _ IH]; intros i n Hlook.
  - done.
  - simpl. destruct n as [|n]; simpl in Hlook.
    + injection Hlook as ->. destruct (decide (addr = addr)); [lia|done].
    + destruct (decide (a = addr)) as [->|Hne].
      * exfalso. apply Hnotin. by eapply list_elem_of_lookup_2.
      * rewrite (IH (i + 1) n Hlook). lia.
Qed.

(** In a rank list without repetition the member at position [n] has
    difficulty [CommitteeSize - n]. *)
Lemma CalcDifficulty_at_position (snap : CommitteeSnapshot) (n : nat) (addr : Address)
    (blockNumber : Z) :
  Z.of_nat (length (CommitteeRank snap)) <= CommitteeSize snap < 2 ^ 64 ->
  NoDup (CommitteeRank snap) ->
  CommitteeRank snap !! n = Some addr ->
  CalcDifficulty snap addr blockNumber = CommitteeSize snap - Z.of_nat n.
Proof.
  intros Hsize Hnodup Hlook.
  assert (Hin : addr ∈ CommitteeRank snap) by (by eapply list_elem_of_lookup_2).
  destruct (CalcDifficulty_present snap addr blockNumber Hsize Hin) as (_ & _ & ->).
  unfold getCurrentRankIndex. rewrite (rankIndexFrom_NoDup 0 _ n) by done. lia.
Qed.

(** A snapshot built by [newSnapshot] sizes the committee by its rank
    list. *)
Lemma newSnapshot_size (config : GenaroConfig) (number : Z) (hash : Hash) (epochNumber : Z)
    (committeeRank : list Address) (proportion : list Z) (snap : CommitteeSnapshot) :
  Z.of_nat (length committeeRank) < 2 ^ 64 ->
  newSnapshot config number hash epochNumber committeeRank proportion = Ok snap ->
  CommitteeRank snap = committeeRank /\
  CommitteeSize snap = Z.of_nat (length committeeRank).
Proof.
  intros Hlen. unfold newSnapshot.
  destruct (decide (length proportion < length committeeRank)%nat); [done|].
  intros [= <-]. simpl. split; [done|]. apply to_uint64_small. lia.
Qed.

(** C5: in a snapshot whose committee size covers its rank list,
    [CalcDifficulty] is 0 for an address outside the rank list and the
    committee size minus the rank index for a member; so the difficulty
    does not increase with the rank index, and the member at rank 0 has
    the highest difficulty of all addresses. *)
Theorem CalcDifficulty_by_rank (snap : CommitteeSnapshot) (blockNumber : Z) :
  Z.of_nat (length (CommitteeRank snap)) <= CommitteeSize snap < 2 ^ 64 ->
  (forall addr, addr ∉ CommitteeRank snap -> CalcDifficulty snap addr blockNumber = 0) /\
  (forall addr, addr ∈ CommitteeRank snap ->
     0 <= getCurrentRankIndex snap addr < Z.of_nat (length (CommitteeRank snap)) /\
     CommitteeRank snap !! Z.to_nat (getCurrentRankIndex snap addr) = Some addr /\
     CalcDifficulty snap addr blockNumber
     = CommitteeSize snap - getCurrentRankIndex snap addr) /\
  (forall a b, a ∈ CommitteeRank snap -> b ∈ CommitteeRank snap ->
     getCurrentRankIndex snap a <= getCurrentRankIndex snap b ->
     CalcDifficulty snap b blockNumber <= CalcDifficulty snap a blockNumber) /\
  (forall top addr, CommitteeRank snap !! 0%nat = Some top ->
     getCurrentRankIndex snap top = 0 /\
     CalcDifficulty snap addr blockNumber <= CalcDifficulty snap top blockNumber).
Proof.
  intros Hsize. split; [|split; [|split]].
  - intros addr. apply CalcDifficulty_absent.
  - intros addr. by apply CalcDifficulty_present.
  - intros a b Ha Hb Hle.
    destruct (CalcDifficulty_present snap a blockNumber Hsize Ha) as (_ & _ & ->).
    destruct (CalcDifficulty_present snap b blockNumber Hsize Hb) as (_ & _ & ->).
    lia.
  - intros top addr Htop.
    assert (Hidx : getCurrentRankIndex snap top = 0).
    { unfold getCurrentRankIndex. destruct (CommitteeRank snap) as [|a rest]; [done|].
      simpl in *. injection Htop as ->. by destruct (decide (top = top)). }
    split; [done|].
    assert (Hin : top ∈ CommitteeRank snap) by (by eapply list_elem_of_lookup_2).
    destruct (CalcDifficulty_present snap top blockNumber Hsize Hin) as (_ & _ & ->).
    rewrite Hidx.
    destruct (decide (addr ∈ CommitteeRank snap)) as [Hmem|Hout].
    + destruct (CalcDifficulty_present snap addr blockNumber Hsize Hmem) as (? & _ & ->). lia.
    + rewrite CalcDifficulty_absent by done. lia.
Qed.

Lemma CalcDifficulty_by_rank_witness :
  Z.of_nat (length (CommitteeRank doubles.trioSnapshot))
    <= CommitteeSize doubles.trioSnapshot < 2 ^ 64 /\
  CalcDifficulty doubles.trioSnapshot doubles.carol 11
    <= CalcDifficulty doubles.trioSnapshot doubles.alice 11.
Proof.
  assert (Hsize : Z.of_nat (length (CommitteeRank doubles.trioSnapshot))
                  <= CommitteeSize doubles.trioSnapshot < 2 ^ 64)
    by (vm_compute; split; [discriminate|reflexivity]).
  split; [exact Hsize|].
  apply (proj2 (proj2 (proj2 (CalcDifficulty_by_rank doubles.trioSnapshot 11 Hsize)))
           doubles.alice doubles.carol).
  reflexivity.
Defined.

(** Three members staking 60, 30 and 10 get proportions 6000, 3000, 1000
    and difficulties 3, 2, 1; an outsider gets difficulty 0. *)
Example trio_committee :
  @Rank doubles.ops doubles.trio
  = ([doubles.alice; doubles.bob; doubles.carol], [6000; 3000; 1000]) /\
  (fun a => CalcDifficulty doubles.trioSnapshot a 11)
    <$> [doubles.alice; doubles.bob; doubles.carol; nameAddress "dave"]
  = [3; 2; 1; 0].
Proof. by vm_compute. Qed.

(** ** Ranking *)

Lemma sumZ_cons (x : Z) (l : list Z) : sumZ (x :: l) = x + sumZ l.
Proof. done. Qed.

Lemma sumStakes_nil : sumStakes [] = 0.
Proof. done. Qed.

Lemma sumStakes_cons (c : CandidateInfo) (l : list CandidateInfo) :
  sumStakes (c :: l) = Stake c + sumStakes l.
Proof. done. Qed.

Lemma sumStakes_Permutation (l1 l2 : list CandidateInfo) :
  l1 ≡ₚ l2 -> sumStakes l1 = sumStakes l2.
Proof.
  induction 1 as [|c l1 l2 _ IH|c d l|l1 l2 l3 _ IH1 _ IH2];
    rewrite ?sumStakes_cons; lia.
Qed.

Lemma sumStakes_nonneg (l : list CandidateInfo) :
  Forall (fun c => 0 <= Stake c) l -> 0 <= sumStakes l.
Proof.
  induction 1 as [|c l Hc _ IH]; rewrite ?sumStakes_cons, ?sumStakes_nil; lia.
Qed.

Lemma Stake_le_sumStakes (l : list CandidateInfo) (c : CandidateInfo) :
  Forall (fun c => 0 <= Stake c) l -> c ∈ l -> 0 <= Stake c <= sumStakes l.
Proof.
  induction 1 as [|d l Hd Hl IH]; intros Hin.
  - by apply elem_of_nil in Hin.
  - pose proof (sumStakes_nonneg l Hl) as Hpos.
    rewrite sumStakes_cons.
    apply elem_of_cons in Hin as [->|Hin]; [lia|].
    specialize (IH Hin). lia.
Qed.

Lemma totalStake_fold (l : list CandidateInfo) (acc : Z) :
  Go.to_uint64 (fold_left (fun total c => Go.add64 total (Stake c)) l acc)
  = Go.to_uint64 (acc + sumStakes l).
Proof.
  revert acc. induction l as [|c l IH]; intros acc.
  - by rewrite sumStakes_nil, Z.add_0_r.
  - simpl. rewrite IH, sumStakes_cons. unfold Go.add64, Go.to_uint64.
    rewrite Zplus_mod_idemp_l. f_equal. lia.
Qed.

Lemma totalStake_fold_range (l : list CandidateInfo) (acc : Z) :
  0 <= acc < 2 ^ 64 ->
  0 <= fold_left (fun total c => Go.add64 total (Stake c)) l acc < 2 ^ 64.
Proof.
  revert acc. induction l as [|c l IH]; intros acc Hacc; [done|].
  simpl. apply IH, to_uint64_range.
Qed.

(** The running total is the exact sum of the stakes reduced modulo 2^64. *)
Lemma totalStake_sum (l : list CandidateInfo) :
  totalStake l = Go.to_uint64 (sumStakes l).
Proof.
  unfold totalStake.
  rewrite <- (to_uint64_small (fold_left _ l 0)) by (apply totalStake_fold_range; lia).
  by rewrite totalStake_fold.
Qed.

Lemma totalStake_Permutation (l1 l2 : list CandidateInfo) :
  l1 ≡ₚ l2 -> totalStake l1 = totalStake l2.
Proof. intros Hp. by rewrite !totalStake_sum, (sumStakes_Permutation _ _ Hp). Qed.

(** The assignment loop fills slots [i], [i+1], ... from the candidates in
    order. *)
Lemma rankLoop_fill (total : Z) (candidateInfos : list CandidateInfo) :
  forall (i : nat) (committeeRank : list Address) (proportion : list Z),
    length committeeRank = (i + length candidateInfos)%nat ->
    length proportion = (i + length candidateInfos)%nat ->
    rankLoop total i candidateInfos committeeRank proportion
    = (take i committeeRank ++ (Signer <$> candidateInfos),
       take i proportion
       ++ ((fun c => Go.mul64 (Stake c) (Go.to_uint64 base) / total) <$> candidateInfos)).
Proof.
  induction candidateInfos as [|c rest IH]; intros i committeeRank proportion Hr Hp; simpl in *.
  - rewrite !app_nil_r, !take_ge by lia. done.
  - rewrite IH by (rewrite length_insert; lia).
    rewrite (take_S_r (<[i:=Signer c]> committeeRank) i (Signer c))
      by (apply list_lookup_insert_eq; lia).
    rewrite (take_S_r (<[i:=Go.mul64 (Stake c) (Go.to_uint64 base) / total]> proportion) i
               (Go.mul64 (Stake c) (Go.to_uint64 base) / total))
      by (apply list_lookup_insert_eq; lia).
    rewrite !take_insert_ge by lia.
    by rewrite <- !app_assoc.
Qed.

Lemma sum_quotients_le (total : Z) (l : list Z) :
  0 < total -> Forall (fun a => 0 <= a) l ->
  total * sumZ ((fun a => a / total) <$> l) <= sumZ l.
Proof.
  intros Htotal. induction 1 as [|a l Ha _ IH]; [cbn; lia|].
  rewrite fmap_cons, !sumZ_cons.
  pose proof (Z.mul_div_le a total Htotal). lia.
Qed.

Lemma sumZ_scaled_stakes (l : list CandidateInfo) :
  sumZ ((fun c => Stake c * base) <$> l) = sumStakes l * base.
Proof.
  induction l as [|c l IH]; [done|].
  rewrite fmap_cons, sumZ_cons, sumStakes_cons, IH. lia.
Qed.

Section RankFacts.
Context `{CandidateOps}.
Hypothesis Apply_length : forall l, length (Apply l) = length l.
Hypothesis Sort_Permutation : forall l, Sort l ≡ₚ l.

Lemma ranked_length (candidateInfos : list CandidateInfo) :
  length (Sort (Apply candidateInfos)) = length candidateInfos.
Proof. by rewrite (Permutation_length (Sort_Permutation _)), Apply_length. Qed.

Lemma Rank_zero (candidateInfos : list CandidateInfo) :
  totalStake (Apply candidateInfos) = 0 ->
  Rank candidateInfos
  = (replicate (length candidateInfos) common.zeroAddress,
     replicate (length candidateInfos) 0).
Proof.
  intros Hzero. unfold Rank.
  rewrite (totalStake_Permutation _ _ (Sort_Permutation _)), Hzero. simpl.
  by rewrite ranked_length.
Qed.

Lemma Rank_exact (candidateInfos : list CandidateInfo) :
  Forall (fun c => 0 <= Stake c) (Apply candidateInfos) ->
  0 < sumStakes (Apply candidateInfos) ->
  sumStakes (Apply candidateInfos) * base < 2 ^ 64 ->
  Rank candidateInfos
  = (Signer <$> Sort (Apply candidateInfos),
     (fun c => Stake c * base / sumStakes (Apply candidateInfos))
       <$> Sort (Apply candidateInfos)).
Proof.
  intros Hnonneg Hpos Hfit. unfold Rank.
  set (ranked := Sort (Apply candidateInfos)).
  assert (Hperm : ranked ≡ₚ Apply candidateInfos) by apply Sort_Permutation.
  assert (Htotal : totalStake ranked = sumStakes (Apply candidateInfos)).
  { rewrite totalStake_sum, (sumStakes_Permutation _ _ Hperm).
    apply to_uint64_small. unfold base in Hfit. lia. }
  rewrite Htotal.
  destruct (Z.eqb_spec (sumStakes (Apply candidateInfos)) 0) as [Heq|_]; [lia|].
  rewrite rankLoop_fill by (by rewrite length_replicate).
  rewrite !take_0. simpl. f_equal.
  apply Forall_fmap_ext, Forall_forall. intros c Hc.
  assert (Hin : c ∈ Apply candidateInfos) by (by rewrite <- Hperm).
  pose proof (Stake_le_sumStakes _ _ Hnonneg Hin) as Hle.
  unfold Go.mul64, base in *.
  rewrite (to_uint64_small 10000) by lia.
  rewrite to_uint64_small by nia. done.
Qed.

End RankFacts.

(** C4 as stated does not hold: it reads that [Rank] on a candidate set
    of zero total stake returns two empty lists.  One candidate staking 0
    gets back one zero address and one zero proportion. *)
Lemma Rank_zero_total_not_empty :
  let candidateInfos := [doubles.candidate doubles.alice 0] in
  totalStake candidateInfos = 0 /\
  @Rank doubles.ops candidateInfos = ([common.zeroAddress], [0]) /\
  @Rank doubles.ops candidateInfos <> ([], []).
Proof. by vm_compute. Qed.

(** C4, amended: for every candidate set whose total stake is zero, [Rank]
    skips the division and returns an address list and a proportion list
    as long as the candidate set, every slot holding the zero address and
    the zero proportion; the lists are empty only for the empty candidate
    set. *)
Theorem Rank_zero_total `{CandidateOps} (candidateInfos : list CandidateInfo) :
  (forall l, length (Apply l) = length l) ->
  (forall l, Sort l ≡ₚ l) ->
  totalStake (Apply candidateInfos) = 0 ->
  Rank candidateInfos
  = (replicate (length candidateInfos) common.zeroAddress,
     replicate (length candidateInfos) 0) /\
  (Rank candidateInfos = ([], []) <-> candidateInfos = []).
Proof.
  intros HA HS Hzero.
  rewrite (Rank_zero HA HS _ Hzero). split; [done|].
  destruct candidateInfos; simpl; [done|]. split; discriminate.
Qed.

Lemma sortByStake_Permutation (l : list CandidateInfo) : doubles.sortByStake l ≡ₚ l.
Proof.
  induction l as [|c l IH]; [done|].
  simpl. rewrite <- IH at 2. generalize (doubles.sortByStake l). clear.
  intros l. induction l as [|d l IH]; simpl; [done|].
  destruct (Stake d <? Stake c); [done|].
  rewrite IH. apply perm_swap.
Qed.

Lemma Rank_zero_total_witness :
  let candidateInfos := [doubles.candidate doubles.alice 0; doubles.candidate doubles.bob 0] in
  totalStake (@Apply doubles.ops candidateInfos) = 0 /\
  @Rank doubles.ops candidateInfos
  = ([common.zeroAddress; common.zeroAddress], [0; 0]).
Proof.
  split; [reflexivity|].
  apply (@Rank_zero_total doubles.ops
           [doubles.candidate doubles.alice 0; doubles.candidate doubles.bob 0]).
  - reflexivity.
  - apply sortByStake_Permutation.
  - reflexivity.
Defined.

(** C6 as stated does not hold: it reads that every candidate set with positive
    total stake gets [stake * 10000 / total] per candidate and proportions
    summing to at most 10000.  A lone candidate staking 2^63 gets 0, not
    10000; stakes 2^64-1 and 2 add up to a running total of 1 and to
    proportions far above 10000. *)
Lemma Rank_overflow_counterexample :
  (let candidateInfos := [doubles.candidate doubles.alice (2 ^ 63)] in
   0 < totalStake candidateInfos /\
   0 < sumStakes candidateInfos /\
   (@Rank doubles.ops candidateInfos).2 = [0] /\
   (@Rank doubles.ops candidateInfos).2
   <> (fun c => Stake c * 10000 / sumStakes candidateInfos) <$> candidateInfos) /\
  (let candidateInfos :=
     [doubles.candidate doubles.alice (2 ^ 64 - 1); doubles.candidate doubles.bob 2] in
   0 < totalStake candidateInfos /\
   0 < sumStakes candidateInfos /\
   ~ sumZ (@Rank doubles.ops candidateInfos).2 <= 10000).
Proof. by vm_compute. Qed.

(** C6, amended: for every candidate set with positive total stake whose
    total stake times 10000 fits in 64 bits, [Rank] assigns each ranked
    candidate the proportion [stake * 10000 / totalStake] under truncating
    division, both output lists are as long as the input, and the
    proportions sum to at most 10000. *)
Theorem Rank_proportions `{CandidateOps} (candidateInfos : list CandidateInfo) :
  (forall l, length (Apply l) = length l) ->
  (forall l, Sort l ≡ₚ l) ->
  Forall (fun c => 0 <= Stake c) (Apply candidateInfos) ->
  0 < sumStakes (Apply candidateInfos) ->
  sumStakes (Apply candidateInfos) * base < 2 ^ 64 ->
  Rank candidateInfos
  = (Signer <$> Sort (Apply candidateInfos),
     (fun c => Stake c * base / sumStakes (Apply candidateInfos))
       <$> Sort (Apply candidateInfos)) /\
  length (Rank candidateInfos).1 = length candidateInfos /\
  length (Rank candidateInfos).2 = length candidateInfos /\
  sumZ (Rank candidateInfos).2 <= base.
Proof.
  intros HA HS Hnonneg Hpos Hfit.
  rewrite (Rank_exact HS _ Hnonneg Hpos Hfit). simpl.
  rewrite !length_fmap, (ranked_length HA HS).
  repeat split.
  set (ranked := Sort (Apply candidateInfos)).
  set (total := sumStakes (Apply candidateInfos)) in *.
  assert (Hsum : total * sumZ ((fun c => Stake c * base / total) <$> ranked)
                 <= total * base).
  { replace ((fun c => Stake c * base / total) <$> ranked)
      with ((fun a => a / total) <$> ((fun c => Stake c * base) <$> ranked))
      by (by rewrite <- list_fmap_compose).
    etrans; [apply sum_quotients_le; [done|]|].
    - apply Forall_fmap, Forall_forall. intros c Hc. simpl.
      assert (Hin : c ∈ Apply candidateInfos) by (by rewrite <- (HS _)).
      pose proof (Stake_le_sumStakes _ _ Hnonneg Hin). unfold base. lia.
    - rewrite sumZ_scaled_stakes. subst ranked total.
      rewrite (sumStakes_Permutation _ _ (HS _)). lia. }
  nia.
Qed.

Lemma Rank_proportions_witness :
  Forall (fun c => 0 <= Stake c) (@Apply doubles.ops doubles.trio) /\
  0 < sumStakes (@Apply doubles.ops doubles.trio) /\
  sumStakes (@Apply doubles.ops doubles.trio) * base < 2 ^ 64 /\
  sumZ (@Rank doubles.ops doubles.trio).2 <= base.
Proof.
  assert (Hnonneg : Forall (fun c => 0 <= Stake c) (@Apply doubles.ops doubles.trio))
    by (repeat constructor; discriminate).
  repeat split; [exact Hnonneg|..].
  apply (@Rank_proportions doubles.ops doubles.trio).
  - reflexivity.
  - apply sortByStake_Permutation.
  - exact Hnonneg.
  - reflexivity.
  - reflexivity.
Defined.

(** ** Preparing a header *)

(** C2 as stated does not hold: it reads that [Prepare] stamps
    [max(now, parentTime + 1)].  With the clock at the parent's timestamp
    (both 100) the header is stamped 100. *)
Lemma Prepare_equal_clock_counterexample :
  let header := doubles.mkHeader 5 0 doubles.signedPayload in
  let out := @Prepare _ _ doubles.codec doubles.helpers doubles.snapshots
               (doubles.chain 100) 100 doubles.engine header in
  GetHeader (doubles.chain 100) (ParentHash header) 4
  = Some (doubles.mkHeader 4 100 doubles.signedPayload) /\
  out.1.1 = Ok () /\
  Time out.2 = 100 /\
  Time out.2 <> Z.max 100 (100 + 1) /\
  ~ 100 < Time out.2.
Proof. by vm_compute. Qed.

(** C2, amended: whenever [Prepare] succeeds, with the clock and the
    parent's timestamp in the [int64] range, the header is stamped [now]
    when [now] is not below the parent's timestamp and the parent's
    timestamp plus one otherwise; the stamp is never below the parent's,
    and it is strictly above it except when [now] equals the parent's
    timestamp, where the two are equal. *)
Theorem Prepare_timestamp {Cache DB : Type}
    `{extra.CommitteeCodec} `{EpochHelpers} `{SnapshotStore Cache DB}
    (chain : ChainReader) (now : Z) (g : Genaro Cache DB) (header parent : Header) :
  GetHeader chain (ParentHash header) (Go.sub64 (big.Uint64 (Number header)) 1) = Some parent ->
  (Prepare chain now g header).1.1 = Ok () ->
  - 2 ^ 63 <= now < 2 ^ 63 ->
  - 2 ^ 63 <= Time parent < 2 ^ 63 - 1 ->
  let stamped := Time (Prepare chain now g header).2 in
  stamped = (if now <? Time parent then Time parent + 1 else now) /\
  Time parent <= stamped /\
  (now <> Time parent -> Time parent < stamped) /\
  (now = Time parent -> stamped = Time parent).
Proof.
  intros Hparent Hok Hnow Hpt. unfold Prepare in *. simpl in *.
  destruct (snapshot chain _ g) as [[snap|err|] g1]; simpl in *; try discriminate.
  rewrite Hparent in *. simpl in *.
  rewrite (to_int64_small now), (big_Int64_exact now), (big_Int64_exact (Time parent)) in * by lia.
  destruct (Z.ltb_spec now (Time parent)); simpl.
  - rewrite to_int64_small by lia. lia.
  - lia.
Qed.

Lemma Prepare_timestamp_witness :
  let header := doubles.mkHeader 5 0 doubles.signedPayload in
  let out := @Prepare _ _ doubles.codec doubles.helpers doubles.snapshots
               (doubles.chain 100) 90 doubles.engine header in
  out.1.1 = Ok () /\ Time out.2 = 101.
Proof.
  split; [reflexivity|].
  apply (@Prepare_timestamp _ _ doubles.codec doubles.helpers doubles.snapshots
           (doubles.chain 100) 90 doubles.engine
           (doubles.mkHeader 5 0 doubles.signedPayload)
           (doubles.mkHeader 4 100 doubles.signedPayload)).
  - reflexivity.
  - reflexivity.
  - by vm_compute.
  - by vm_compute.
Defined.

(** ** Verifying a seal *)

Section VerifySealFacts.
Context {Cache DB : Type}.
Context `{Crypto} `{extra.CommitteeCodec} `{EpochHelpers} `{SnapshotStore Cache DB}.

(** The genesis block is turned away first. *)
Lemma VerifySeal_genesis (chain : ChainReader) (now : Z) (g : Genaro Cache DB) (header : Header) :
  big.Uint64 (Number header) = 0 ->
  VerifySeal chain now g header = (Err errUnknownBlock, g, header).
Proof. intros Hzero. unfold VerifySeal. by rewrite Hzero. Qed.

(** A header dated after the local clock is turned away next, whatever
    its payload. *)
Lemma VerifySeal_future (chain : ChainReader) (now : Z) (g : Genaro Cache DB) (header : Header) :
  big.Uint64 (Number header) <> 0 ->
  big.NewInt now < Time header ->
  VerifySeal chain now g header = (Err ErrFutureBlock, g, header).
Proof.
  intros Hnum Hfuture. unfold VerifySeal.
  destruct (Z.eqb_spec (big.Uint64 (Number header)) 0); [done|].
  unfold big.Cmp. rewrite (proj2 (Z.compare_gt_iff _ _)) by lia. done.
Qed.

End VerifySealFacts.

(** C7 as stated does not hold: it reads that an epoch-boundary header with
    an empty committee list always fails with [errInvalidEpochBlock].
    Block 10 of a 10-block epoch, dated 200 on a clock at 100, carries no
    committee list and fails with [ErrFutureBlock]; block 0 fails with
    [errUnknownBlock]. *)
Lemma VerifySeal_epoch_block_counterexample :
  let verify := @VerifySeal _ _ doubles.crypto doubles.codec doubles.helpers
                  doubles.snapshots (doubles.chain 50) 100 doubles.engine in
  let late := doubles.mkHeader 10 200 doubles.signedPayload in
  let genesis := doubles.mkHeader 0 50 doubles.signedPayload in
  Go.rem64 (big.Uint64 (Number late)) (Epoch (config doubles.engine)) = Ok 0 /\
  (extra.CommitteeRank <$> @extra.UnmarshalToExtra doubles.codec late) = Some [] /\
  (verify late).1.1 = Err ErrFutureBlock /\
  (verify late).1.1 <> Err errInvalidEpochBlock /\
  Go.rem64 (big.Uint64 (Number genesis)) (Epoch (config doubles.engine)) = Ok 0 /\
  (extra.CommitteeRank <$> @extra.UnmarshalToExtra doubles.codec genesis) = Some [] /\
  (verify genesis).1.1 = Err errUnknownBlock /\
  (verify genesis).1.1 <> Err errInvalidEpochBlock.
Proof. by vm_compute. Qed.

(** C7, amended: for every epoch-boundary header other than the genesis
    block whose timestamp is not ahead of the local clock and whose
    payload decodes, [VerifySeal] returns [errInvalidEpochBlock] whenever
    the embedded committee list holds no 20-byte entry or more than
    [CommitteeMaxSize] of them. *)
Theorem VerifySeal_epoch_block {Cache DB : Type}
    `{Crypto} `{extra.CommitteeCodec} `{EpochHelpers} `{SnapshotStore Cache DB}
    (chain : ChainReader) (now : Z) (g : Genaro Cache DB) (header : Header)
    (e : extra.ExtraData) :
  big.Uint64 (Number header) <> 0 ->
  Time header <= big.NewInt now ->
  Epoch (config g) <> 0 ->
  big.Uint64 (Number header) mod Epoch (config g) = 0 ->
  extra.UnmarshalToExtra header = Some e ->
  let committeeSize :=
    Z.of_nat (length (extra.CommitteeRank e)) / Z.of_nat common.AddressLength in
  (committeeSize = 0 \/ CommitteeMaxSize (config g) < committeeSize < 2 ^ 64) ->
  VerifySeal chain now g header = (Err errInvalidEpochBlock, g, header).
Proof.
  intros Hnum Htime Hepoch Hboundary Hdec committeeSize Hsize.
  unfold VerifySeal.
  destruct (Z.eqb_spec (big.Uint64 (Number header)) 0); [done|].
  assert (Hcmp : (big.Cmp (Time header) (big.NewInt now) >? 0) = false).
  { unfold big.Cmp.
    destruct (Z.compare_spec (Time header) (big.NewInt now)) as [_|_|H3]; [done|done|].
    exfalso. clear - Htime H3. lia. }
  rewrite Hcmp. unfold Go.rem64.
  destruct (Z.eqb_spec (Epoch (config g)) 0); [done|].
  simpl. rewrite Hboundary, Hdec. simpl.
  fold committeeSize.
  destruct Hsize as [->|Hbig].
  - done.
  - assert (Hnonneg : 0 <= committeeSize) by (apply Z.div_pos; [lia|done]).
    rewrite to_uint64_small by lia.
    destruct (Z.eqb_spec committeeSize 0); [done|].
    destruct (Z.gtb_spec committeeSize (CommitteeMaxSize (config g))); [done|lia].
Qed.

Lemma VerifySeal_epoch_block_witness :
  let header := doubles.mkHeader 10 50 doubles.signedPayload in
  Time header <= big.NewInt 100 /\
  big.Uint64 (Number header) mod Epoch (config doubles.engine) = 0 /\
  @VerifySeal _ _ doubles.crypto doubles.codec doubles.helpers doubles.snapshots
    (doubles.chain 50) 100 doubles.engine header
  = (Err errInvalidEpochBlock, doubles.engine, header).
Proof.
  split; [by vm_compute|]. split; [reflexivity|].
  eapply (@VerifySeal_epoch_block _ _ doubles.crypto doubles.codec doubles.helpers
            doubles.snapshots).
  - by vm_compute.
  - by vm_compute.
  - by vm_compute.
  - reflexivity.
  - reflexivity.
  - left. reflexivity.
Defined.

(** ** The coin coefficient *)

(** C3: the coefficient's planned amount is to be derived from the
    surplus pool as [accumulateInterestRewards] derives the per-block
    planned reward; [getCoinCofficient] does not do so.  With a surplus of
    8400000, one block per epoch and 1 paid, [accumulateInterestRewards]
    plans 8400000 * 1250 / 10000 / 12 / 1 = 87500, for which the claim's
    coefficient is 87500 * 10000 / 1 = 875000000; [getCoinCofficient]
    divides by [ratioPerYear] and multiplies by [base] where the sibling
    divides by [epochPerYear], and returns 150000000000. *)
Theorem getCoinCofficient_diverges :
  let config := {| Epoch := 1; BlockInterval := 10; ElectionPeriod := 1; ValidPeriod := 1;
                   CurrencyRates := 10; CommitteeMaxSize := 5 |} in
  let st := doubles.ledger {[ nameAddress SurplusCoinAddress := 8400000 ]} [] (fun _ => 0) in
  interestBlockReward config st base 7 = Ok 87500 /\
  specPlannedPerEpoch config 8400000 = 87500 /\
  specCoinCoefficient config 1 8400000 = 875000000 /\
  coinPlannedPerEpoch config 8400000 = 15000000 /\
  getCoinCofficient config 1 8400000 = Ok 150000000000 /\
  getCoinCofficient config 1 8400000 <> Ok (specCoinCoefficient config 1 8400000).
Proof. by vm_compute. Qed.

(** With nothing paid in the previous epoch and a full proportion, the
    reward [accumulateInterestRewards] plans per block is the
    specification's planned amount: the pool's share divided by the epochs
    per year and by the epoch length. *)
Lemma interestBlockReward_planned (config : GenaroConfig) (st : StateDB) (blockNumber : Z) :
  0 < Epoch config < 2 ^ 60 ->
  GetBalance st (nameAddress (Pre +:+ CoinActualRewardsAddress)) = 0 ->
  interestBlockReward config st base blockNumber
  = Ok (specPlannedPerEpoch config (GetBalance st (nameAddress SurplusCoinAddress))).
Proof.
  intros Hepoch Hpaid. unfold interestBlockReward, preSurplus, getCoinCofficient.
  rewrite Hpaid. unfold Go.rem64, Go.mul64, epochPerYear.
  rewrite (to_uint64_small (Epoch config * 12)) by lia.
  destruct (Z.eqb_spec (Epoch config * 12) 0); [lia|]. simpl.
  rewrite (big_NewInt_small (Epoch config)) by lia.
  change (big.NewInt coinRewardsRatio) with 1250.
  change (big.NewInt base) with 10000.
  change (big.NewInt (Go.to_uint64 base)) with 10000.
  change (big.NewInt 12) with 12.
  unfold big.Mul, specPlannedPerEpoch, epochPerYear, coinRewardsRatio, base.
  rewrite !Z.div_mul by lia.
  destruct (_ =? 0); simpl; by rewrite big_Div_pos by lia.
Qed.

(** The storage coefficient is computed by the same steps. *)
Lemma getStorageCoefficient_getCoinCofficient (config : GenaroConfig) (paid surplus : Z) :
  getStorageCoefficient config paid surplus = getCoinCofficient config paid surplus.
Proof. reflexivity. Qed.

Lemma coinPlannedPerEpoch_nonneg (config : GenaroConfig) (surplus : Z) :
  0 < Epoch config -> 0 <= surplus -> 0 <= coinPlannedPerEpoch config surplus.
Proof.
  intros Hepoch Hsurplus. unfold coinPlannedPerEpoch, coinRewardsRatio, ratioPerYear, base.
  apply Z.div_pos; [|lia].
  apply Z.mul_nonneg_nonneg; [|lia].
  apply Z.div_pos; [|lia]. apply Z.div_pos; lia.
Qed.

(** The arithmetic [getCoinCofficient] carries out, in closed form: for
    every config with an epoch length in the [int64] range and
    non-negative amounts, it returns [base] when the actual-paid amount is
    zero, and otherwise the amount it plans, times [base], over the amount
    paid, reduced to 64 bits; the amount it plans is the surplus times
    [coinRewardsRatio] over [base], divided by [ratioPerYear] (700),
    multiplied by [base] and divided by the epoch length. *)
Theorem getCoinCofficient_formula (config : GenaroConfig) (coinrewards surplusRewards : Z) :
  0 < Epoch config < 2 ^ 63 ->
  0 <= coinrewards ->
  0 <= surplusRewards ->
  getCoinCofficient config coinrewards surplusRewards
  = Ok (if coinrewards =? 0 then base
        else (coinPlannedPerEpoch config surplusRewards * base / coinrewards) mod 2 ^ 64).
Proof.
  intros Hepoch Hpaid Hsurplus. unfold getCoinCofficient.
  change (big.NewInt 0) with 0. unfold big.Cmp.
  destruct (Z.eqb_spec coinrewards 0) as [->|Hne]; [done|].
  destruct (Z.compare_spec coinrewards 0) as [?|?|Hgt]; [lia|lia|]. simpl.
  rewrite (big_NewInt_small (Epoch config)) by lia.
  rewrite (big_Div_pos _ (Epoch config)) by lia. simpl.
  rewrite (big_Div_pos _ coinrewards) by lia. simpl.
  pose proof (coinPlannedPerEpoch_nonneg config surplusRewards ltac:(lia) Hsurplus) as Hplan.
  unfold big.Uint64, big.Mul, coinPlannedPerEpoch in *.
  change (big.NewInt coinRewardsRatio) with coinRewardsRatio.
  change (big.NewInt base) with base.
  change (big.NewInt ratioPerYear) with ratioPerYear.
  rewrite Z.abs_eq; [done|].
  apply Z.div_pos; [|lia]. unfold base in *. lia.
Qed.

Lemma getCoinCofficient_formula_witness :
  getCoinCofficient doubles.cfg 1000 8400000 = Ok 15000000.
Proof.
  apply (getCoinCofficient_formula doubles.cfg 1000 8400000); by vm_compute.
Defined.

(** ** Storage rewards *)

(** With no contribution at all nothing is paid. *)
Lemma accumulateStorageRewards_no_contribution (config : GenaroConfig) (st : StateDB)
    (blockNumber blockReward : Z) :
  storageBlockReward config st blockNumber = Ok blockReward ->
  totalContribution (contributions st blockNumber (GetCandidates st)) = 0 ->
  accumulateStorageRewards config st blockNumber = Ok st.
Proof.
  intros Hreward Hzero. unfold accumulateStorageRewards.
  rewrite Hreward. simpl. by rewrite Hzero.
Qed.

(** One round of the allocation loop credits the candidate
    [blockReward / total], whatever the candidate contributed. *)
Lemma allocateBlockReward_step (blockReward total : Z) (c : Address) (cs : list Address)
    (contribute : Z) (contributes : list Z) (st : StateDB) :
  0 < big.NewInt total ->
  allocateBlockReward blockReward total (c :: cs) (contribute :: contributes) st
  = allocateBlockReward blockReward total cs contributes
      (AddBalance (AddBalance st c (blockReward / big.NewInt total))
                  (nameAddress StorageActualRewardsAddress)
                  (blockReward / big.NewInt total)).
Proof. intros Htotal. simpl. by rewrite big_Div_pos. Qed.

Lemma GetBalance_AddBalance (st : StateDB) (a b : Address) (v : Z) :
  GetBalance (AddBalance st a v) b
  = GetBalance st b + (if decide (a = b) then v else 0).
Proof.
  destruct (decide (a = b)) as [->|Hne].
  - apply GetBalance_AddBalance_eq.
  - rewrite GetBalance_AddBalance_ne by done. lia.
Qed.

(** The whole loop: with [q] the quotient of the block reward by the
    total, every listed candidate is credited [q] per listing, and the
    storage counter [q] per candidate. *)
Lemma allocateBlockReward_credits (blockReward total q : Z) (cs : list Address) :
  big.Div blockReward (big.NewInt total) = Ok q ->
  forall (contributes : list Z) (st : StateDB),
    length contributes = length cs ->
    exists st',
      allocateBlockReward blockReward total cs contributes st = Ok st' /\
      forall a,
        GetBalance st' a
        = GetBalance st a + q * occurrences a cs
          + (if decide (nameAddress StorageActualRewardsAddress = a)
             then q * Z.of_nat (length cs) else 0).
Proof.
  intros Hq. induction cs as [|c cs IH]; intros contributes st Hlen.
  - exists st. split; [by destruct contributes|].
    intros a. simpl. destruct (decide _); lia.
  - destruct contributes as [|contribute contributes]; [done|].
    simpl in Hlen. injection Hlen as Hlen.
    cbn [allocateBlockReward]. rewrite Hq. cbn [mbind result_bind].
    destruct (IH contributes
                (AddBalance (AddBalance st c q)
                   (nameAddress StorageActualRewardsAddress) q) Hlen)
      as (st' & Hrun & Hbal).
    exists st'. split; [done|].
    intros a. rewrite Hbal, !GetBalance_AddBalance.
    cbn [occurrences length]. rewrite Nat2Z.inj_succ.
    destruct (decide (c = a)), (decide (nameAddress StorageActualRewardsAddress = a)); lia.
Qed.

(** C1: the block reward is not apportioned by contribution.  On a ledger
    with a block reward of 10000 and contributions 3 (alice) and 0 (bob),
    the apportioning of the claim credits alice 10000 and bob nothing;
    [accumulateStorageRewards] credits each of them 10000 / 3 = 3333. *)
Theorem accumulateStorageRewards_flat_shares :
  let st := doubles.storageLedger in
  storageBlockReward doubles.cfg st 7 = Ok 10000 /\
  contributions st 7 (GetCandidates st) = [3; 0] /\
  10000 * 3 / totalContribution [3; 0] = 10000 /\
  match accumulateStorageRewards doubles.cfg st 7 with
  | Ok st' =>
      GetBalance st' doubles.alice = 3333 /\
      GetBalance st' doubles.bob = 3333 /\
      GetBalance st' (nameAddress StorageActualRewardsAddress) = 6666
  | _ => False
  end.
Proof. by vm_compute. Qed.

(** * Further properties of the code *)

(** ** The index log's integer codec *)

Lemma byteVal_range (b : byte) : 0 <= levlog.byteVal b < 256.
Proof.
  unfold levlog.byteVal. pose proof (Byte.to_N_bounded b). lia.
Qed.

Lemma byteVal_byteOf (v : Z) : levlog.byteVal (levlog.byteOf v) = v mod 256.
Proof.
  unfold levlog.byteVal, levlog.byteOf, byte_of_N.
  pose proof (Z.mod_pos_bound v 256 ltac:(lia)) as Hrange.
  destruct (Byte.of_N (Z.to_N (v mod 256))) as [y|] eqn:Hy.
  - apply Byte.to_of_N in Hy. simpl. rewrite Hy. lia.
  - apply Byte.of_N_None_iff in Hy. lia.
Qed.

Lemma byteOf_byteVal (b : byte) : levlog.byteOf (levlog.byteVal b) = b.
Proof.
  unfold levlog.byteOf. rewrite Z.mod_small by apply byteVal_range.
  unfold levlog.byteVal. rewrite N2Z.id. apply byte_of_to_N.
Qed.

Lemma bigEndianPut_length (n : nat) (v : Z) : length (levlog.bigEndianPut n v) = n.
Proof. induction n as [|n IH]; simpl; [done|]. by rewrite IH. Qed.

(** Reading back [n] written bytes on top of an accumulator. *)
Lemma bigEndianValue_Put (n : nat) (v acc : Z) :
  fold_left (fun a x => a * 256 + levlog.byteVal x) (levlog.bigEndianPut n v) acc
  = acc * 256 ^ Z.of_nat n + v mod 256 ^ Z.of_nat n.
Proof.
  revert acc. induction n as [|n IH]; intros acc.
  - simpl. rewrite Z.mod_1_r. lia.
  - cbn [levlog.bigEndianPut fold_left]. rewrite IH, byteVal_byteOf.
    rewrite Nat2Z.inj_succ, Z.pow_succ_r by lia.
    rewrite (Z.mul_comm 256 (256 ^ Z.of_nat n)).
    rewrite (Z.rem_mul_r v (256 ^ Z.of_nat n) 256) by lia.
    lia.
Qed.

(** The value of a byte string on top of an accumulator stays within the
    accumulator's block. *)
Lemma bigEndianValue_bounds (b : list byte) (acc : Z) :
  acc * 256 ^ Z.of_nat (length b)
  <= fold_left (fun a x => a * 256 + levlog.byteVal x) b acc
  < (acc + 1) * 256 ^ Z.of_nat (length b).
Proof.
  revert acc. induction b as [|x b IH]; intros acc.
  - simpl. lia.
  - cbn [fold_left length]. specialize (IH (acc * 256 + levlog.byteVal x)).
    pose proof (byteVal_range x).
    rewrite Nat2Z.inj_succ, Z.pow_succ_r by lia.
    assert (0 < 256 ^ Z.of_nat (length b)) by (apply Z.pow_pos_nonneg; lia).
    nia.
Qed.

(** Writing the value of a byte string in as many bytes gives the string
    back. *)
Lemma bigEndianPut_Value (b : list byte) (acc : Z) :
  levlog.bigEndianPut (length b)
    (fold_left (fun a x => a * 256 + levlog.byteVal x) b acc) = b.
Proof.
  revert acc. induction b as [|x b IH]; intros acc; [done|].
  cbn [fold_left length levlog.bigEndianPut]. rewrite IH. f_equal.
  pose proof (bigEndianValue_bounds b (acc * 256 + levlog.byteVal x)) as Hb.
  assert (Hpos : 0 < 256 ^ Z.of_nat (length b)) by (apply Z.pow_pos_nonneg; lia).
  assert (Hdiv : fold_left (fun a x0 => a * 256 + levlog.byteVal x0) b
                   (acc * 256 + levlog.byteVal x) / 256 ^ Z.of_nat (length b)
                 = acc * 256 + levlog.byteVal x).
  { symmetry. apply Z.div_unique_pos with
      (r := fold_left (fun a x0 => a * 256 + levlog.byteVal x0) b
              (acc * 256 + levlog.byteVal x)
            - (acc * 256 + levlog.byteVal x) * 256 ^ Z.of_nat (length b)); lia. }
  rewrite Hdiv. unfold levlog.byteOf.
  rewrite Z.add_comm, Z.mod_add by lia.
  fold (levlog.byteOf (levlog.byteVal x)). apply byteOf_byteVal.
Qed.

Lemma to_int64_to_uint64 (i : Z) : - 2 ^ 63 <= i < 2 ^ 63 -> Go.to_int64 (Go.to_uint64 i) = i.
Proof.
  intros Hi. unfold Go.to_int64, Go.to_uint64.
  destruct (Z.lt_ge_cases i 0).
  - replace (i mod 2 ^ 64) with (i + 2 ^ 64).
    + replace (i + 2 ^ 64 + 2 ^ 63) with (i + 2 ^ 63 + 1 * 2 ^ 64) by lia.
      rewrite Z.mod_add by lia. rewrite Z.mod_small; lia.
    + apply Z.mod_unique with (q := -1); lia.
  - rewrite (Z.mod_small i) by lia. rewrite Z.mod_small; lia.
Qed.

Lemma to_uint64_to_int64 (v : Z) : 0 <= v < 2 ^ 64 -> Go.to_uint64 (Go.to_int64 v) = v.
Proof.
  intros Hv. unfold Go.to_int64, Go.to_uint64.
  rewrite Zminus_mod_idemp_l.
  replace (v + 2 ^ 63 - 2 ^ 63) with v by lia. by apply Z.mod_small.
Qed.

Lemma to_int64_range (v : Z) : - 2 ^ 63 <= Go.to_int64 v < 2 ^ 63.
Proof.
  unfold Go.to_int64. pose proof (Z.mod_pos_bound (v + 2 ^ 63) (2 ^ 64) ltac:(lia)). lia.
Qed.

Lemma Int64ToBytes_length (i : Z) : length (levlog.Int64ToBytes i) = 8%nat.
Proof.
  unfold levlog.Int64ToBytes.
  rewrite copy_same_length by (by rewrite bigEndianPut_length, length_replicate).
  apply bigEndianPut_length.
Qed.

Lemma BytesToInt64_short (buf : list byte) :
  (length buf < 8)%nat -> levlog.BytesToInt64 buf = Panic.
Proof.
  intros Hlen. unfold levlog.BytesToInt64, levlog.BigEndianUint64.
  by destruct (decide (length buf < 8)%nat); [|lia].
Qed.

Lemma BytesToInt64_decodes (i : Z) :
  - 2 ^ 63 <= i < 2 ^ 63 -> levlog.BytesToInt64 (levlog.Int64ToBytes i) = Ok i.
Proof.
  intros Hi. unfold levlog.Int64ToBytes.
  rewrite copy_same_length by (by rewrite bigEndianPut_length, length_replicate).
  unfold levlog.BytesToInt64, levlog.BigEndianUint64.
  rewrite bigEndianPut_length.
  destruct (decide (8 < 8)%nat); [lia|].
  rewrite take_ge by (rewrite bigEndianPut_length; lia).
  unfold levlog.bigEndianValue. rewrite bigEndianValue_Put. simpl mbind.
  cbn [mbind result_bind]. f_equal.
  rewrite Z.mul_0_l, Z.add_0_l.
  change (256 ^ Z.of_nat 8) with (2 ^ 64).
  pose proof (to_uint64_range i) as Hr. unfold Go.to_uint64 in *.
  rewrite Z.mod_mod by lia. by apply to_int64_to_uint64.
Qed.

(** X1: decoding what [Int64ToBytes] wrote gives the number back, for
    every [int64]; the encoding is 8 bytes long. *)
Theorem BytesToInt64_Int64ToBytes (i : Z) :
  - 2 ^ 63 <= i < 2 ^ 63 ->
  length (levlog.Int64ToBytes i) = 8%nat /\
  levlog.BytesToInt64 (levlog.Int64ToBytes i) = Ok i.
Proof.
  intros Hi. split; [apply Int64ToBytes_length|by apply BytesToInt64_decodes].
Qed.

Lemma BytesToInt64_Int64ToBytes_witness :
  - 2 ^ 63 <= -2 < 2 ^ 63 /\
  levlog.BytesToInt64 (levlog.Int64ToBytes (-2)) = Ok (-2).
Proof.
  split; [lia|].
  apply (BytesToInt64_Int64ToBytes (-2)). lia.
Defined.

(** X2: [BytesToInt64] panics on fewer than 8 bytes, reads only the first
    8 of a longer buffer, and always yields an [int64]; encoding the
    number it read from an 8-byte buffer gives the buffer back. *)
Theorem Int64ToBytes_BytesToInt64 (buf : list byte) :
  ((length buf < 8)%nat -> levlog.BytesToInt64 buf = Panic) /\
  ((8 <= length buf)%nat ->
   exists i, levlog.BytesToInt64 buf = Ok i /\
             - 2 ^ 63 <= i < 2 ^ 63 /\
             levlog.BytesToInt64 (take 8 buf) = Ok i /\
             levlog.Int64ToBytes i = take 8 buf).
Proof.
  split; [apply BytesToInt64_short|].
  unfold levlog.BytesToInt64, levlog.BigEndianUint64. intros Hlen.
  - destruct (decide (length buf < 8)%nat); [lia|].
    assert (Htake : length (take 8 buf) = 8%nat) by (rewrite length_take; lia).
    rewrite Htake. destruct (decide (8 < 8)%nat); [lia|].
    rewrite take_take. replace (8 `min` 8)%nat with 8%nat by lia.
    cbn [mbind result_bind].
    eexists. split; [done|]. split; [apply to_int64_range|]. split; [done|].
    unfold levlog.Int64ToBytes, levlog.bigEndianValue.
    rewrite copy_same_length by (by rewrite bigEndianPut_length, length_replicate).
    pose proof (bigEndianValue_bounds (take 8 buf) 0) as Hb.
    rewrite Htake in Hb. change (256 ^ Z.of_nat 8) with (2 ^ 64) in Hb.
    rewrite to_uint64_to_int64 by lia.
    rewrite <- Htake at 1. apply bigEndianPut_Value.
Qed.

Lemma Int64ToBytes_BytesToInt64_witness :
  (8 <= length (replicate 9 xff))%nat /\
  exists i, levlog.BytesToInt64 (replicate 9 xff) = Ok i /\
            - 2 ^ 63 <= i < 2 ^ 63 /\
            levlog.BytesToInt64 (take 8 (replicate 9 xff)) = Ok i /\
            levlog.Int64ToBytes i = take 8 (replicate 9 xff).
Proof.
  assert (Hlen : (8 <= length (replicate 9 xff))%nat) by (vm_compute; lia).
  split; [exact Hlen|].
  exact (proj2 (Int64ToBytes_BytesToInt64 (replicate 9 xff)) Hlen).
Defined.

(** ** The index log's current index *)

(** X3: on a store that returns what was last put under a key,
    [getNowIndex] answers 0 for a log without the index and leaves the
    index written, so that a second call answers 0 again and changes
    nothing; an index written by [Int64ToBytes] is read back as it is; a
    failing store is reported with its error, the log untouched; a stored
    value shorter than 8 bytes makes the call panic. *)
Theorem getNowIndex_behaviour {D : Type} `{levlog.LevelDB D} (l : levlog.Levlog D) :
  (forall d k v, levlog.dbGet (levlog.dbPut d k v) k = levlog.Found v) ->
  (levlog.dbGet (levlog.DB l) levlog.NOW_INDEX_B = levlog.NotFound ->
   exists l1, levlog.getNowIndex l = (Ok 0, l1) /\
              levlog.dbGet (levlog.DB l1) levlog.NOW_INDEX_B
              = levlog.Found (levlog.Int64ToBytes 0) /\
              levlog.getNowIndex l1 = (Ok 0, l1)) /\
  (forall i, - 2 ^ 63 <= i < 2 ^ 63 ->
   levlog.dbGet (levlog.DB l) levlog.NOW_INDEX_B = levlog.Found (levlog.Int64ToBytes i) ->
   levlog.getNowIndex l = (Ok i, l)) /\
  (forall err, levlog.dbGet (levlog.DB l) levlog.NOW_INDEX_B = levlog.GetError err ->
   levlog.getNowIndex l = (Err err, l)) /\
  (forall val, levlog.dbGet (levlog.DB l) levlog.NOW_INDEX_B = levlog.Found val ->
   (length val < 8)%nat -> levlog.getNowIndex l = (Panic, l)).
Proof.
  intros Hlaw. unfold levlog.getNowIndex. repeat split.
  - intros Hmiss. rewrite Hmiss. eexists. split; [done|]. simpl.
    rewrite Hlaw. split; [done|].
    by rewrite (BytesToInt64_decodes 0 ltac:(lia)).
  - intros i Hi Hfound. rewrite Hfound.
    by rewrite (BytesToInt64_decodes i Hi).
  - by intros err ->.
  - intros val -> Hshort.
    by rewrite (BytesToInt64_short val Hshort).
Qed.

Lemma getNowIndex_behaviour_witness :
  (forall d k v, @levlog.dbGet _ fixtures.mapDB (@levlog.dbPut _ fixtures.mapDB d k v) k
                 = levlog.Found v) /\
  exists l1, @levlog.getNowIndex _ fixtures.mapDB fixtures.emptyLog = (Ok 0, l1) /\
             @levlog.dbGet _ fixtures.mapDB (levlog.DB l1) levlog.NOW_INDEX_B
             = levlog.Found (levlog.Int64ToBytes 0) /\
             @levlog.getNowIndex _ fixtures.mapDB l1 = (Ok 0, l1).
Proof.
  assert (Hlaw : forall d k v,
            @levlog.dbGet _ fixtures.mapDB (@levlog.dbPut _ fixtures.mapDB d k v) k
            = levlog.Found v).
  { intros d k v. simpl. by rewrite lookup_insert_eq. }
  split; [exact Hlaw|].
  apply (proj1 (@getNowIndex_behaviour _ fixtures.mapDB fixtures.emptyLog Hlaw)).
  reflexivity.
Defined.

(** ** The snapshot manager *)

Section SnapshotFacts.
Context {Cache DB : Type}.
Context `{extra.CommitteeCodec} `{EpochHelpers} `{SnapshotStore Cache DB}.

(** A cache hit is answered from the cache: the chain is not read and the
    durable store is left alone. *)
Lemma snapshot_hit (chain : ChainReader) (epollNumber : Z) (g : Genaro Cache DB)
    (s : CommitteeSnapshot) (c : Cache) :
  recentsGet (recents g) epollNumber = (Some s, c) ->
  snapshot chain epollNumber g
  = (Ok s, set_store (set_store g c (db g)) (recentsAdd c epollNumber s) (db g)).
Proof. intros Hhit. unfold snapshot. by rewrite Hhit. Qed.

(** Whenever [snapshot] returns, with a snapshot or with an error, a
    snapshot for the epoch has been put in the cache. *)
Lemma snapshot_cached (chain : ChainReader) (epollNumber : Z) (g g1 : Genaro Cache DB)
    (r : result CommitteeSnapshot) :
  snapshot chain epollNumber g = (r, g1) ->
  r <> Panic ->
  exists s c, recents g1 = recentsAdd c epollNumber s /\
              (r = Ok s \/ exists err, r = Err err).
Proof.
  unfold snapshot. intros Hrun Hr.
  destruct (recentsGet (recents g) epollNumber) as [hit c].
  destruct hit as [s|].
  - injection Hrun as <- <-. exists s, c. split; [done|by left].
  - match type of Hrun with
    | context [match ?b with Ok _ => _ | Err _ => _ | Panic => _ end] =>
        destruct b as [[snap isNew]|err|] eqn:Hbuilt
    end.
    + destruct isNew.
      * destruct (store snap _) as [[err|] d]; injection Hrun as <- <-;
          exists snap, c; (split; [done|]); [right; by exists err|by left].
      * injection Hrun as <- <-. exists snap, c. split; [done|by left].
    + injection Hrun as <- <-. exfalso.
      destruct (_ <? _) in Hbuilt;
        destruct (GetHeaderByNumber chain _) in Hbuilt; try done;
        destruct (extra.GetHeaderCommitteeRankList _) in Hbuilt;
        destruct (newSnapshot _ _ _ _ _ _) eqn:Hnew in Hbuilt; try done;
        unfold newSnapshot in Hnew; by destruct (decide _) in Hnew.
    + by injection Hrun as <- <-.
Qed.

Hypothesis cache_law :
  forall (c : Cache) (k : Z) (s : CommitteeSnapshot), (recentsGet (recentsAdd c k s) k).1 = Some s.

Lemma snapshot_again (chain : ChainReader) (epollNumber : Z) (g1 : Genaro Cache DB)
    (s : CommitteeSnapshot) (c : Cache) :
  recents g1 = recentsAdd c epollNumber s ->
  exists g2, snapshot chain epollNumber g1 = (Ok s, g2) /\ db g2 = db g1.
Proof.
  intros Hrec. pose proof (cache_law c epollNumber s) as Hlaw. rewrite <- Hrec in Hlaw.
  destruct (recentsGet (recents g1) epollNumber) as [hit c'] eqn:Hget. simpl in Hlaw. subst hit.
  rewrite (snapshot_hit chain _ _ _ _ Hget). by eexists.
Qed.

End SnapshotFacts.

(** X4: with a cache that returns what was last added under a key, a
    request that yielded a snapshot is answered with the same snapshot
    when repeated, and the repeat does not write to the durable store. *)
Theorem snapshot_idempotent {Cache DB : Type}
    `{extra.CommitteeCodec} `{EpochHelpers} `{SnapshotStore Cache DB}
    (chain : ChainReader) (epollNumber : Z) (g g1 : Genaro Cache DB) (s : CommitteeSnapshot) :
  (forall (c : Cache) (k : Z) (s : CommitteeSnapshot),
     (recentsGet (recentsAdd c k s) k).1 = Some s) ->
  snapshot chain epollNumber g = (Ok s, g1) ->
  exists g2, snapshot chain epollNumber g1 = (Ok s, g2) /\ db g2 = db g1.
Proof.
  intros Hlaw Hrun.
  destruct (snapshot_cached chain epollNumber g g1 (Ok s) Hrun ltac:(done))
    as (s' & c & Hrec & [[= <-]|[err [=]]]).
  by eapply snapshot_again.
Qed.

(** X5: the snapshot is cached before it is stored.  When the durable
    store fails the request returns the store's error, and the next
    request for the epoch is served from the cache, with a snapshot and
    without another attempt to store it. *)
Theorem snapshot_store_failure {Cache DB : Type}
    `{extra.CommitteeCodec} `{EpochHelpers} `{SnapshotStore Cache DB}
    (chain : ChainReader) (epollNumber : Z) (g g1 : Genaro Cache DB) (err : error) :
  (forall (c : Cache) (k : Z) (s : CommitteeSnapshot),
     (recentsGet (recentsAdd c k s) k).1 = Some s) ->
  snapshot chain epollNumber g = (Err err, g1) ->
  exists s g2, snapshot chain epollNumber g1 = (Ok s, g2) /\ db g2 = db g1.
Proof.
  intros Hlaw Hrun.
  destruct (snapshot_cached chain epollNumber g g1 (Err err) Hrun ltac:(done))
    as (s & c & Hrec & _).
  exists s. by eapply snapshot_again.
Qed.

Lemma map_cache_law (c : gmap Z CommitteeSnapshot) (k : Z) (s : CommitteeSnapshot) :
  (@recentsGet _ _ doubles.snapshots (@recentsAdd _ _ doubles.snapshots c k s) k).1 = Some s.
Proof. simpl. apply lookup_insert_eq. Qed.

Lemma map_cache_law_failing (c : gmap Z CommitteeSnapshot) (k : Z) (s : CommitteeSnapshot) :
  (@recentsGet _ _ fixtures.failingStore (@recentsAdd _ _ fixtures.failingStore c k s) k).1
  = Some s.
Proof. simpl. apply lookup_insert_eq. Qed.

Lemma snapshot_idempotent_witness :
  exists s g1,
    @snapshot _ _ doubles.codec doubles.helpers doubles.snapshots
      (doubles.chain 100) 0 doubles.engine = (Ok s, g1) /\
    exists g2,
      @snapshot _ _ doubles.codec doubles.helpers doubles.snapshots
        (doubles.chain 100) 0 g1 = (Ok s, g2) /\
      db g2 = db g1.
Proof.
  destruct (@snapshot _ _ doubles.codec doubles.helpers doubles.snapshots
              (doubles.chain 100) 0 doubles.engine) as [[s|err|] g1] eqn:Hrun;
    [|by vm_compute in Hrun..].
  exists s, g1. split; [done|].
  exact (@snapshot_idempotent _ _ doubles.codec doubles.helpers doubles.snapshots
           (doubles.chain 100) 0 doubles.engine g1 s map_cache_law Hrun).
Defined.

Lemma snapshot_store_failure_witness :
  exists err g1,
    @snapshot _ _ doubles.codec doubles.helpers fixtures.failingStore
      (doubles.chain 100) 0 doubles.engine = (Err err, g1) /\
    exists s g2,
      @snapshot _ _ doubles.codec doubles.helpers fixtures.failingStore
        (doubles.chain 100) 0 g1 = (Ok s, g2) /\
      db g2 = db g1.
Proof.
  destruct (@snapshot _ _ doubles.codec doubles.helpers fixtures.failingStore
              (doubles.chain 100) 0 doubles.engine) as [[s|err|] g1] eqn:Hrun;
    [by vm_compute in Hrun| |by vm_compute in Hrun].
  exists err, g1. split; [done|].
  exact (@snapshot_store_failure _ _ doubles.codec doubles.helpers fixtures.failingStore
           (doubles.chain 100) 0 doubles.engine g1 err map_cache_law_failing Hrun).
Defined.

(** ** Verification: what it leaves and what it guarantees *)

Section VerifyFacts.
Context {Cache DB : Type}.
Context `{Crypto} `{extra.CommitteeCodec} `{EpochHelpers} `{SnapshotStore Cache DB}.

(** [ecrecover] hands every header back as it got it, decodable or not. *)
Lemma ecrecover_header (header : Header) : (ecrecover header).2 = header.
Proof.
  unfold ecrecover. destruct (extra.UnmarshalToExtra header) as [e|] eqn:Hdec; [|done].
  rewrite (SetHeaderSignature_Reset header e Hdec).
  destruct (Ecrecover _ _) as [err|pubkey]; [done|].
  destruct (decide (length pubkey < 1)%nat); [done|].
  by destruct (decide (length (Keccak256 (drop 1 pubkey)) < 12)%nat).
Qed.

Lemma VerifySeal_header (chain : ChainReader) (now : Z) (g : Genaro Cache DB)
    (header : Header) :
  (VerifySeal chain now g header).2 = header.
Proof.
  unfold VerifySeal.
  destruct (_ =? 0); [done|]. destruct (_ >? 0); [done|]. cbv zeta.
  destruct (mbind _ (Go.rem64 _ _)) as [[]|err|]; [|done..].
  destruct (snapshot chain _ g) as [[snap|err|] g1]; [|done..].
  pose proof (ecrecover_header header) as Hsame.
  destruct (ecrecover header) as [[signer|err|] header1]; simpl in Hsame; subst header1;
    [|done..].
  destruct (Committee snap !! signer); [|done].
  destruct (GetHeader chain _ _) as [parent|]; [|done].
  destruct (_ <? _); [done|]. destruct (inturn _ _ _); [done|].
  by destruct (_ >? _).
Qed.

End VerifyFacts.

(** X6: [VerifySeal] never changes the header it checks: on every path,
    accepting or rejecting, the header handed back is the header handed
    in, signature included. *)
Theorem VerifySeal_leaves_header {Cache DB : Type}
    `{Crypto} `{extra.CommitteeCodec} `{EpochHelpers} `{SnapshotStore Cache DB}
    (chain : ChainReader) (now : Z) (g : Genaro Cache DB) (header : Header) :
  (VerifySeal chain now g header).2 = header /\
  (VerifyHeader chain now g header true).2 = header /\
  (VerifyHeader chain now g header false).2 = header.
Proof. unfold VerifyHeader. repeat split; apply VerifySeal_header. Qed.

Lemma big_Cmp_le (x y : Z) : (big.Cmp x y >? 0) = false -> x <= y.
Proof.
  unfold big.Cmp. destruct (Z.compare_spec x y); [lia|lia|done].
Qed.

(** X7: what an accepted header satisfies.  When [VerifySeal] returns no
    error, the block is not the genesis block, it is not dated after the
    local clock, a signer was recovered from it and is a member of the
    committee of the block's epoch, the parent is known and not dated
    after the block, and a signer that is not in turn has waited: the
    parent's timestamp plus the header's difficulty does not exceed the
    block's timestamp (difficulty below 2^32, parent timestamp below
    2^62).  On an epoch boundary the embedded committee list has between
    1 and [CommitteeMaxSize] entries. *)
Theorem VerifySeal_accepted {Cache DB : Type}
    `{Crypto} `{extra.CommitteeCodec} `{EpochHelpers} `{SnapshotStore Cache DB}
    (chain : ChainReader) (now : Z) (g g1 : Genaro Cache DB) (header header1 : Header) :
  VerifySeal chain now g header = (Ok (), g1, header1) ->
  let blockNumber := big.Uint64 (Number header) in
  blockNumber <> 0 /\
  Time header <= big.NewInt now /\
  (exists snap signer parent,
     snapshot chain (GetTurnOfCommiteeByBlockNumber (config g) blockNumber) g = (Ok snap, g1) /\
     (ecrecover header).1 = Ok signer /\
     is_Some (Committee snap !! signer) /\
     GetHeader chain (ParentHash header) (Go.sub64 blockNumber 1) = Some parent /\
     big.Uint64 (Time parent) <= big.Uint64 (Time header) /\
     (inturn snap blockNumber signer = false ->
      0 <= Difficulty header < 2 ^ 32 ->
      0 <= Time parent < 2 ^ 62 ->
      Time parent + Difficulty header <= big.Uint64 (Time header))) /\
  (Epoch (config g) <> 0 /\
   (blockNumber mod Epoch (config g) = 0 ->
    exists e, extra.UnmarshalToExtra header = Some e /\
      1 <= Go.to_uint64 (Z.of_nat (length (extra.CommitteeRank e))
                         / Z.of_nat common.AddressLength)
        <= CommitteeMaxSize (config g))).
Proof.
  intros Hrun blockNumber. subst blockNumber. unfold VerifySeal in Hrun.
  destruct (Z.eqb_spec (big.Uint64 (Number header)) 0) as [|Hnum]; [done|].
  destruct (big.Cmp (Time header) (big.NewInt now) >? 0) eqn:Hcmp; [done|].
  apply big_Cmp_le in Hcmp. cbv zeta in Hrun.
  destruct (mbind _ (Go.rem64 _ _)) as [[]|err|] eqn:Hepoch; [|done..].
  destruct (snapshot chain _ g) as [[snap|err|] g2] eqn:Hsnap; [|done..].
  pose proof (ecrecover_header header) as Hsame.
  destruct (ecrecover header) as [[signer|err|] header2] eqn:Hrec; simpl in Hsame;
    subst header2; [|done..].
  destruct (Committee snap !! signer) as [p|] eqn:Hmember; [|done].
  destruct (GetHeader chain _ _) as [parent|] eqn:Hparent; [|done].
  destruct (Z.ltb_spec (big.Uint64 (Time header)) (big.Uint64 (Time parent))) as [|Htime];
    [done|].
  split; [done|]. split; [done|]. split.
  - exists snap, signer, parent.
    assert (g1 = g2) as ->.
    { destruct (inturn _ _ _); [by injection Hrun|].
      destruct (_ >? _); [done|by injection Hrun]. }
    repeat (split; [done || lia || by eexists|]).
    intros Hturn Hdiff Hpt. rewrite Hturn in Hrun.
    destruct (Z.gtb_spec
                (Go.add64 (big.Uint64 (Time parent))
                   (Go.to_uint64 (Go.to_int64 (Go.mul64 (big.Uint64 (Difficulty header)) Second))
                    / Second))
                (big.Uint64 (Time header))) as [|Hwait]; [done|].
    rewrite (big_Uint64_small (Difficulty header)) in Hwait by lia.
    rewrite (big_Uint64_small (Time parent)) in Hwait by lia.
    unfold Go.mul64, Second in Hwait.
    rewrite (to_uint64_small (Difficulty header * 1000000000)) in Hwait by lia.
    rewrite to_uint64_to_int64 in Hwait by lia.
    rewrite Z.div_mul in Hwait by lia.
    unfold Go.add64 in Hwait. rewrite to_uint64_small in Hwait by lia. lia.
  - unfold Go.rem64 in Hepoch.
    destruct (Z.eqb_spec (Epoch (config g)) 0) as [|Hep]; [done|]. split; [done|].
    intros Hboundary. simpl in Hepoch. rewrite Hboundary in Hepoch. simpl in Hepoch.
    destruct (extra.UnmarshalToExtra header) as [e|]; [|done].
    exists e. split; [done|].
    destruct (Z.eqb_spec (Go.to_uint64 (Z.of_nat (length (extra.CommitteeRank e))
                                          / Z.of_nat common.AddressLength)) 0); [done|].
    destruct (Z.gtb_spec (Go.to_uint64 (Z.of_nat (length (extra.CommitteeRank e))
                                          / Z.of_nat common.AddressLength))
                (CommitteeMaxSize (config g))); [done|].
    pose proof (to_uint64_range (Z.of_nat (length (extra.CommitteeRank e))
                                 / Z.of_nat common.AddressLength)). lia.
Qed.

Lemma VerifySeal_accepted_witness :
  let header := doubles.mkHeader 7 60 doubles.signedPayload in
  let out := @VerifySeal _ _ doubles.crypto fixtures.codec doubles.helpers doubles.snapshots
               (doubles.chain 50) 100 fixtures.engine header in
  out = (Ok (), out.1.2, out.2) /\
  big.Uint64 (Number header) <> 0 /\
  Time header <= big.NewInt 100.
Proof.
  intros header out.
  assert (Hrun : out = (Ok (), out.1.2, out.2)) by (by vm_compute).
  split; [exact Hrun|].
  pose proof (@VerifySeal_accepted _ _ doubles.crypto fixtures.codec doubles.helpers
                doubles.snapshots (doubles.chain 50) 100 fixtures.engine out.1.2
                header out.2 Hrun) as (Hnum & Htime & _).
  split; [exact Hnum|exact Htime].
Defined.

(** ** Sealing *)

Lemma sealDelay_exact (snap : CommitteeSnapshot) (header : Header) (jitter slot : Z) :
  CommitteeSize snap < 2 ^ 32 ->
  0 <= slot <= CommitteeSize snap ->
  Difficulty header = CommitteeSize snap - slot ->
  0 <= jitter < wiggleTime ->
  sealDelay snap header jitter = (slot + 1) * Second + jitter.
Proof.
  intros Hsize Hslot Hdiff Hjitter. unfold sealDelay, wiggleTime, Second in *.
  rewrite Hdiff, big_Uint64_small by lia.
  unfold Go.sub64, Go.add64, Go.mul64.
  replace (CommitteeSize snap - (CommitteeSize snap - slot)) with slot by lia.
  rewrite (to_uint64_small slot) by lia.
  rewrite (to_uint64_small (slot + 1)) by lia.
  rewrite (to_uint64_small 1000000000) by lia.
  rewrite (to_uint64_small ((slot + 1) * 1000000000)) by lia.
  rewrite (to_int64_small ((slot + 1) * 1000000000)) by lia.
  rewrite (to_int64_small jitter) by lia.
  rewrite to_int64_small; lia.
Qed.

(** X8: the wait of [Seal] follows the rank.  For a header whose
    difficulty is the one [CalcDifficulty] gives the engine's signer in
    the block's snapshot (committee size below 2^32 and covering the rank
    list), [Seal] waits the signer's rank index plus one seconds, or the
    committee size plus one seconds for a signer outside the committee,
    plus the jitter below 500 ms; when the stop signal comes first it
    returns no block and no error, and otherwise it signs the hash of the
    header as it was handed in. *)
Theorem Seal_waits_by_rank {Cache DB : Type}
    `{Crypto} `{extra.CommitteeCodec} `{EpochHelpers} `{SnapshotStore Cache DB}
    (chain : ChainReader) (signFn : SignerFn) (jitter : Z) (stopped : Z -> bool)
    (g g1 : Genaro Cache DB) (header : Header) (snap : CommitteeSnapshot) :
  let number := big.Uint64 (Number header) in
  number <> 0 ->
  snapshot chain (GetTurnOfCommiteeByBlockNumber (config g) number) g = (Ok snap, g1) ->
  Z.of_nat (length (CommitteeRank snap)) <= CommitteeSize snap < 2 ^ 32 ->
  Difficulty header = CalcDifficulty snap (signer g) number ->
  0 <= jitter < wiggleTime ->
  let slot := if decide (signer g ∈ CommitteeRank snap)
              then getCurrentRankIndex snap (signer g)
              else CommitteeSize snap in
  let wait := (slot + 1) * Second + jitter in
  (slot + 1) * Second <= wait < (slot + 1) * Second + wiggleTime /\
  Seal chain signFn jitter stopped g header
  = if stopped wait then (Ok None, g1)
    else match signFn (signer g) (sigHash header) with
         | inl err => (Err err, g1)
         | inr sighash => (Ok (Some (extra.SetHeaderSignature header sighash)), g1)
         end.
Proof.
  intros number Hnum Hsnap Hsize Hdiff Hjitter slot wait.
  split; [subst wait; lia|].
  unfold Seal. fold number.
  destruct (Z.eqb_spec number 0); [done|]. rewrite Hsnap.
  assert (Hdelay : sealDelay snap header jitter = wait).
  { subst wait. apply sealDelay_exact; [lia| |..|done]; subst slot;
      destruct (decide (signer g ∈ CommitteeRank snap)) as [Hin|Hout].
    - destruct (CalcDifficulty_present snap (signer g) number ltac:(lia) Hin)
        as (Hidx & _ & _). lia.
    - lia.
    - destruct (CalcDifficulty_present snap (signer g) number ltac:(lia) Hin)
        as (_ & _ & Heq). by rewrite Hdiff, Heq.
    - rewrite Hdiff, CalcDifficulty_absent by done. lia. }
  by rewrite Hdelay.
Qed.

Lemma Seal_waits_by_rank_witness :
  let header := types.set_Difficulty (doubles.mkHeader 7 60 doubles.signedPayload) 1 in
  let run := @Seal _ _ doubles.crypto fixtures.codec doubles.helpers doubles.snapshots
               (doubles.chain 50) (fun _ _ => inr doubles.signedPayload) 250000000 in
  big.Uint64 (Number header) <> 0 /\
  0 <= 250000000 < wiggleTime /\
  (run (fun delay => delay <? 2000000000) fixtures.engine header).1 = Ok None.
Proof.
  intros header run.
  assert (Hnum : big.Uint64 (Number header) <> 0) by (by vm_compute).
  assert (Hjitter : 0 <= 250000000 < wiggleTime) by (by vm_compute).
  split; [exact Hnum|]. split; [exact Hjitter|].
  destruct (@snapshot _ _ fixtures.codec doubles.helpers doubles.snapshots (doubles.chain 50)
              (@GetTurnOfCommiteeByBlockNumber doubles.helpers (config fixtures.engine)
                 (big.Uint64 (Number header))) fixtures.engine) as [[snap|err|] g1] eqn:Hsnap;
    [|by vm_compute in Hsnap..].
  assert (Hsnap' := Hsnap). vm_compute in Hsnap'. injection Hsnap' as Hs Hg.
  assert (Hsize : Z.of_nat (length (CommitteeRank snap)) <= CommitteeSize snap < 2 ^ 32)
    by (rewrite <- Hs; by vm_compute).
  assert (Hdiff : Difficulty header
                  = CalcDifficulty snap (signer fixtures.engine) (big.Uint64 (Number header)))
    by (rewrite <- Hs; by vm_compute).
  subst run. cbv beta.
  rewrite (proj2 (@Seal_waits_by_rank _ _ doubles.crypto fixtures.codec doubles.helpers
                    doubles.snapshots (doubles.chain 50)
                    (fun _ _ => inr doubles.signedPayload) 250000000
                    (fun delay => delay <? 2000000000) fixtures.engine g1 header snap
                    Hnum Hsnap Hsize Hdiff Hjitter)).
  rewrite <- Hs. by vm_compute.
Defined.

Section SealRecover.
Context {Cache DB : Type}.
Context `{Crypto} `{extra.CommitteeCodec} `{EpochHelpers} `{SnapshotStore Cache DB}.

(** A sealed block is the header with the callback's signature set. *)
Lemma Seal_block (chain : ChainReader) (signFn : SignerFn) (jitter : Z) (stopped : Z -> bool)
    (g g1 : Genaro Cache DB) (header sealed : Header) :
  Seal chain signFn jitter stopped g header = (Ok (Some sealed), g1) ->
  exists sig, signFn (signer g) (sigHash header) = inr sig /\
              sealed = extra.SetHeaderSignature header sig.
Proof.
  unfold Seal. intros Hrun.
  destruct (_ =? 0); [done|].
  destruct (snapshot chain _ g) as [[snap|err|] g2]; [|done..].
  destruct (stopped _); [done|].
  destruct (signFn _ _) as [err|sig]; [done|].
  injection Hrun as <- <-. by exists sig.
Qed.

(** Clearing the signature of a header sealed over a blank signature
    region gives the header that was signed. *)
Lemma ResetHeaderSignature_sealed (header : Header) (sig : list byte) :
  (extra.SignatureLength <= length (Extra header))%nat ->
  take extra.SignatureLength (Extra header) = replicate extra.SignatureLength x00 ->
  length sig = extra.SignatureLength ->
  extra.ResetHeaderSignature (extra.SetHeaderSignature header sig) = header.
Proof.
  intros Hlen Hblank Hsig.
  pose proof (SetHeaderSignature_Extra header sig Hsig) as Hsealed.
  unfold extra.ResetHeaderSignature. unfold extra.SetHeaderSignature at 1.
  rewrite copy_same_length
    by (by rewrite signature_region_length, length_replicate).
  rewrite Hsealed, drop_app_length' by done.
  rewrite <- Hblank, take_drop.
  unfold extra.SetHeaderSignature. rewrite set_Extra_twice.
  by apply header_set_Extra_id.
Qed.

End SealRecover.

(** X9: sealing and recovery agree.  When the header's signature region
    is blank as [Seal] signs it, the callback's signature is 65 bytes long
    and recovers, over the hash it signed, to a public key whose address
    is the engine's signer, then [ecrecover] on the sealed header returns
    that signer and leaves the sealed header as it is. *)
Theorem Seal_then_ecrecover {Cache DB : Type}
    `{Crypto} `{extra.CommitteeCodec} `{EpochHelpers} `{SnapshotStore Cache DB}
    (chain : ChainReader) (signFn : SignerFn) (jitter : Z) (stopped : Z -> bool)
    (g g1 : Genaro Cache DB) (header sealed : Header) :
  (extra.SignatureLength <= length (Extra header))%nat ->
  take extra.SignatureLength (Extra header) = replicate extra.SignatureLength x00 ->
  (forall sig, signFn (signer g) (sigHash header) = inr sig ->
     length sig = extra.SignatureLength /\
     exists pubkey,
       Ecrecover (sigHash header) sig = inr pubkey /\
       (1 <= length pubkey)%nat /\
       (12 <= length (Keccak256 (drop 1 pubkey)))%nat /\
       Go.copy common.zeroAddress (drop 12 (Keccak256 (drop 1 pubkey))) = signer g) ->
  Seal chain signFn jitter stopped g header = (Ok (Some sealed), g1) ->
  ecrecover sealed = (Ok (signer g), sealed).
Proof.
  intros Hlen Hblank Hkey Hseal.
  destruct (Seal_block _ _ _ _ _ _ _ _ Hseal) as (sig & Hsig & ->).
  destruct (Hkey sig Hsig) as (Hsiglen & pubkey & Hrec & Hpub & Hdigest & Haddr).
  pose proof (SetHeaderSignature_Extra header sig Hsiglen) as Hextra.
  assert (Hdec : exists e, extra.UnmarshalToExtra (extra.SetHeaderSignature header sig) = Some e
                           /\ extra.Signature e = sig).
  { unfold extra.UnmarshalToExtra. rewrite Hextra.
    destruct (decide (length (sig ++ drop extra.SignatureLength (Extra header))
                      < extra.SignatureLength)%nat) as [Hshort|_].
    - rewrite length_app in Hshort. lia.
    - eexists. split; [done|]. simpl. by rewrite take_app_length'. }
  destruct Hdec as (e & Hdec & Hesig).
  unfold ecrecover. rewrite Hdec, Hesig.
  rewrite (ResetHeaderSignature_sealed header sig Hlen Hblank Hsiglen), Hrec.
  destruct (decide (length pubkey < 1)%nat); [lia|].
  destruct (decide (length (Keccak256 (drop 1 pubkey)) < 12)%nat); [lia|].
  by rewrite Haddr.
Qed.

Lemma Seal_then_ecrecover_witness :
  let header := doubles.mkHeader 7 60 (replicate 65 x00) in
  let out := @Seal _ _ doubles.crypto fixtures.codec doubles.helpers doubles.snapshots
               (doubles.chain 50) (fun _ _ => inr doubles.signedPayload) 0
               (fun _ => false) fixtures.engine header in
  exists sealed,
    out = (Ok (Some sealed), out.2) /\
    @ecrecover doubles.crypto fixtures.codec sealed = (Ok fixtures.solo, sealed).
Proof.
  intros header out.
  exists (extra.SetHeaderSignature header doubles.signedPayload).
  assert (Hrun : out = (Ok (Some (extra.SetHeaderSignature header doubles.signedPayload)),
                        out.2)) by (by vm_compute).
  split; [exact Hrun|].
  apply (@Seal_then_ecrecover _ _ doubles.crypto fixtures.codec doubles.helpers
           doubles.snapshots (doubles.chain 50) (fun _ _ => inr doubles.signedPayload) 0
           (fun _ => false) fixtures.engine out.2 header _).
  - by vm_compute.
  - by vm_compute.
  - intros sig [= <-]. split; [by vm_compute|].
    exists (replicate 65 x2a).
    repeat split; vm_compute; lia.
  - exact Hrun.
Defined.

(** ** Epoch and year bookkeeping *)

Ltac names_ne := solve [by vm_compute | congruence | done].

Ltac ledger :=
  repeat first
    [ rewrite GetBalance_SetBalance_eq
    | rewrite GetBalance_AddBalance_eq
    | rewrite GetBalance_SubBalance_eq
    | rewrite GetBalance_SetBalance_ne by names_ne
    | rewrite GetBalance_AddBalance_ne by names_ne
    | rewrite GetBalance_SubBalance_ne by names_ne ].

(** The accounts [updateEpochRewards] writes. *)
Lemma updateEpochRewards_balances (st : StateDB) :
  let coin := GetBalance st (nameAddress CoinActualRewardsAddress) in
  let storage := GetBalance st (nameAddress StorageActualRewardsAddress) in
  let total := GetBalance st (nameAddress TotalActualRewardsAddress) in
  let st' := updateEpochRewards st in
  GetBalance st' (nameAddress (Pre +:+ CoinActualRewardsAddress)) = coin /\
  GetBalance st' (nameAddress (Pre +:+ StorageActualRewardsAddress)) = storage /\
  GetBalance st' (nameAddress CoinActualRewardsAddress) = 0 /\
  GetBalance st' (nameAddress StorageActualRewardsAddress) = 0 /\
  GetBalance st' (nameAddress TotalActualRewardsAddress) = total + coin + storage /\
  GetBalance st' (nameAddress SurplusCoinAddress)
  = GetBalance st (nameAddress SurplusCoinAddress) /\
  GetBalance st' (nameAddress (Pre +:+ SurplusCoinAddress))
  = GetBalance st (nameAddress (Pre +:+ SurplusCoinAddress)).
Proof.
  intros coin storage total st'. subst coin storage total st'.
  unfold updateEpochRewards. repeat split; ledger; done.
Qed.

(** X10: at an epoch boundary [updateEpochRewards] copies the coin and
    storage counters into their previous-epoch snapshots, resets both to
    zero and adds both to the total-rewards-paid accumulator, so the sum
    of the two counters and the accumulator is what it was; no other
    account changes. *)
Theorem updateEpochRewards_rollover (st : StateDB) :
  let coin := GetBalance st (nameAddress CoinActualRewardsAddress) in
  let storage := GetBalance st (nameAddress StorageActualRewardsAddress) in
  let total := GetBalance st (nameAddress TotalActualRewardsAddress) in
  let st' := updateEpochRewards st in
  GetBalance st' (nameAddress (Pre +:+ CoinActualRewardsAddress)) = coin /\
  GetBalance st' (nameAddress (Pre +:+ StorageActualRewardsAddress)) = storage /\
  GetBalance st' (nameAddress CoinActualRewardsAddress) = 0 /\
  GetBalance st' (nameAddress StorageActualRewardsAddress) = 0 /\
  GetBalance st' (nameAddress TotalActualRewardsAddress) = total + coin + storage /\
  GetBalance st' (nameAddress CoinActualRewardsAddress)
  + GetBalance st' (nameAddress StorageActualRewardsAddress)
  + GetBalance st' (nameAddress TotalActualRewardsAddress) = coin + storage + total /\
  (forall a,
     a ∉ nameAddress <$> [CoinActualRewardsAddress; StorageActualRewardsAddress;
                          TotalActualRewardsAddress; Pre +:+ CoinActualRewardsAddress;
                          Pre +:+ StorageActualRewardsAddress] ->
     GetBalance st' a = GetBalance st a).
Proof.
  intros coin storage total st'.
  destruct (updateEpochRewards_balances st) as (H1 & H2 & H3 & H4 & H5 & _).
  fold coin storage total st' in H1, H2, H3, H4, H5.
  repeat (split; [done|]). split; [lia|].
  intros a Ha. subst st'. unfold updateEpochRewards.
  rewrite !fmap_cons in Ha. rewrite !not_elem_of_cons in Ha.
  destruct Ha as (? & ? & ? & ? & ? & _).
  ledger. done.
Qed.

Lemma year_boundary_is_epoch_boundary (blockNumber epoch : Z) :
  epoch <> 0 -> blockNumber mod (12 * epoch) = 0 -> blockNumber mod epoch = 0.
Proof.
  intros Hepoch Hyear.
  apply Z.mod_divide in Hyear; [|lia]. destruct Hyear as [k ->].
  replace (k * (12 * epoch)) with (k * 12 * epoch) by lia. by apply Z.mod_mul.
Qed.

Section SpecialBlockFacts.
Context `{CandidateOps} `{extra.CommitteeCodec}.

(** The three kinds of block [updateSpecialBlock] tells apart. *)
Lemma updateSpecialBlock_cases (config : GenaroConfig) (header : Header) (st : StateDB) :
  0 < Epoch config < 2 ^ 60 ->
  let blockNumber := big.Uint64 (Number header) in
  (blockNumber mod Epoch config <> 0 ->
   updateSpecialBlock config header st = Ok (header, st)) /\
  (blockNumber mod Epoch config = 0 ->
   exists header',
     updateSpecialBlock config header st
     = Ok (header',
           if blockNumber mod (12 * Epoch config) =? 0
           then updateEpochYearRewards (updateEpochRewards st)
           else updateEpochRewards st)).
Proof.
  intros Hepoch blockNumber. unfold updateSpecialBlock. fold blockNumber.
  unfold Go.rem64, Go.mul64, epochPerYear.
  rewrite (to_uint64_small (12 * Epoch config)) by lia.
  destruct (Z.eqb_spec (Epoch config) 0); [lia|].
  destruct (Z.eqb_spec (12 * Epoch config) 0); [lia|].
  cbn [mbind result_bind]. split; intros Hmod.
  - destruct (Z.eqb_spec (blockNumber mod Epoch config) 0); [done|].
    destruct (Z.eqb_spec (blockNumber mod (12 * Epoch config)) 0) as [Hyear|]; [|done].
    apply year_boundary_is_epoch_boundary in Hyear; [done|lia].
  - rewrite Hmod. simpl (0 =? 0).
    destruct (Rank _) as [commiteeRank proportion].
    eexists. by destruct (_ =? 0).
Qed.

End SpecialBlockFacts.

(** X11: for an epoch length between 1 and 2^60, [updateSpecialBlock]
    leaves header and ledger alone on a block that is not an epoch
    boundary; on an epoch boundary it rolls the epoch counters; on a year
    boundary, which is always an epoch boundary too, it rolls the epoch
    counters first and the year second, so that the surplus pool drops by
    the accumulated total plus the coin and storage rewards of the epoch
    just ended, the previous-year snapshot holds the old pool, and the
    two counters and the accumulator are zero. *)
Theorem updateSpecialBlock_boundaries `{CandidateOps} `{extra.CommitteeCodec}
    (config : GenaroConfig) (header : Header) (st : StateDB) :
  0 < Epoch config < 2 ^ 60 ->
  let blockNumber := big.Uint64 (Number header) in
  (blockNumber mod Epoch config <> 0 ->
   updateSpecialBlock config header st = Ok (header, st)) /\
  (blockNumber mod Epoch config = 0 ->
   blockNumber mod (12 * Epoch config) <> 0 ->
   exists header', updateSpecialBlock config header st = Ok (header', updateEpochRewards st)) /\
  (blockNumber mod (12 * Epoch config) = 0 ->
   exists header' st',
     updateSpecialBlock config header st = Ok (header', st') /\
     st' = updateEpochYearRewards (updateEpochRewards st) /\
     GetBalance st' (nameAddress SurplusCoinAddress)
     = GetBalance st (nameAddress SurplusCoinAddress)
       - (GetBalance st (nameAddress TotalActualRewardsAddress)
          + GetBalance st (nameAddress CoinActualRewardsAddress)
          + GetBalance st (nameAddress StorageActualRewardsAddress)) /\
     GetBalance st' (nameAddress (Pre +:+ SurplusCoinAddress))
     = GetBalance st (nameAddress SurplusCoinAddress) /\
     GetBalance st' (nameAddress TotalActualRewardsAddress) = 0 /\
     GetBalance st' (nameAddress CoinActualRewardsAddress) = 0 /\
     GetBalance st' (nameAddress StorageActualRewardsAddress) = 0).
Proof.
  intros Hepoch. assert (Hne : Epoch config <> 0) by lia. intros blockNumber.
  destruct (updateSpecialBlock_cases config header st Hepoch) as [Hoff Hon].
  fold blockNumber in Hoff, Hon.
  split; [done|]. split.
  - intros Hmod Hyear. destruct (Hon Hmod) as [header' Hrun]. exists header'.
    by destruct (Z.eqb_spec (blockNumber mod (12 * Epoch config)) 0).
  - intros Hyear.
    destruct (Hon (year_boundary_is_epoch_boundary _ _ Hne Hyear)) as [header' Hrun].
    rewrite Hyear in Hrun. simpl in Hrun.
    exists header', (updateEpochYearRewards (updateEpochRewards st)).
    split; [done|]. split; [done|].
    destruct (updateEpochRewards_balances st) as (_ & _ & Hc & Hs & Ht & Hsur & _).
    cbv zeta in Hc, Hs, Ht, Hsur.
    unfold updateEpochYearRewards. repeat split; ledger; try done.
    rewrite Hsur, Ht. lia.
Qed.

Lemma updateSpecialBlock_boundaries_witness :
  let header := doubles.mkHeader 120 60 doubles.signedPayload in
  let st := doubles.ledger
              {[ nameAddress SurplusCoinAddress := 1000;
                 nameAddress TotalActualRewardsAddress := 100;
                 nameAddress CoinActualRewardsAddress := 20;
                 nameAddress StorageActualRewardsAddress := 3 ]} [] (fun _ => 0) in
  0 < Epoch doubles.cfg < 2 ^ 60 /\
  big.Uint64 (Number header) mod (12 * Epoch doubles.cfg) = 0 /\
  exists header' st',
    @updateSpecialBlock doubles.ops doubles.codec doubles.cfg header st = Ok (header', st') /\
    GetBalance st' (nameAddress SurplusCoinAddress) = 877.
Proof.
  intros header st.
  assert (Hepoch : 0 < Epoch doubles.cfg < 2 ^ 60) by (by vm_compute).
  assert (Hyear : big.Uint64 (Number header) mod (12 * Epoch doubles.cfg) = 0)
    by (by vm_compute).
  split; [exact Hepoch|]. split; [exact Hyear|].
  destruct (proj2 (proj2 (@updateSpecialBlock_boundaries doubles.ops doubles.codec
                            doubles.cfg header st Hepoch)) Hyear)
    as (header' & st' & Hrun & _ & Hsurplus & _).
  exists header', st'. split; [exact Hrun|].
  rewrite Hsurplus. by vm_compute.
Defined.

(** ** The ranking handed to the header *)

Section RankMoreFacts.
Context `{CandidateOps}.
Hypothesis Apply_length : forall l, length (Apply l) = length l.
Hypothesis Sort_Permutation : forall l, Sort l ≡ₚ l.

Lemma Rank_nonzero (candidateInfos : list CandidateInfo) :
  totalStake (Apply candidateInfos) <> 0 ->
  Rank candidateInfos
  = (Signer <$> Sort (Apply candidateInfos),
     (fun c => Go.mul64 (Stake c) (Go.to_uint64 base) / totalStake (Apply candidateInfos))
       <$> Sort (Apply candidateInfos)).
Proof.
  intros Htotal. unfold Rank.
  rewrite (totalStake_Permutation _ _ (Sort_Permutation (Apply candidateInfos))).
  destruct (Z.eqb_spec (totalStake (Apply candidateInfos)) 0); [done|].
  rewrite rankLoop_fill by (by rewrite length_replicate).
  by rewrite !take_0.
Qed.

Lemma Rank_lengths (candidateInfos : list CandidateInfo) :
  length (Rank candidateInfos).1 = length candidateInfos /\
  length (Rank candidateInfos).2 = length candidateInfos.
Proof.
  destruct (Z.eq_dec (totalStake (Apply candidateInfos)) 0) as [Hzero|Hpos].
  - rewrite (Rank_zero Apply_length Sort_Permutation _ Hzero). simpl.
    by rewrite !length_replicate.
  - rewrite (Rank_nonzero _ Hpos). simpl.
    by rewrite !length_fmap, (ranked_length Apply_length Sort_Permutation).
Qed.

End RankMoreFacts.

(** X12: on an epoch boundary the header is given the first
    [CommitteeMaxSize] entries of the ranking of the epoch's candidates,
    all of them when there are no more than that; the address list and
    the proportion list it is given always have the same length, the
    smaller of the number of candidates and [CommitteeMaxSize]. *)
Theorem updateSpecialBlock_committee `{CandidateOps} `{extra.CommitteeCodec}
    (config : GenaroConfig) (header : Header) (st : StateDB) :
  (forall l, length (Apply l) = length l) ->
  (forall l, Sort l ≡ₚ l) ->
  0 < Epoch config < 2 ^ 60 ->
  0 <= CommitteeMaxSize config ->
  let blockNumber := big.Uint64 (Number header) in
  let candidateInfos :=
    GetCandidatesInfoInRange st (Go.sub64 blockNumber (Epoch config)) blockNumber in
  Z.of_nat (length candidateInfos) < 2 ^ 64 ->
  blockNumber mod Epoch config = 0 ->
  let size := Z.to_nat (CommitteeMaxSize config) in
  let committeeRank := take size (Rank candidateInfos).1 in
  let proportion := take size (Rank candidateInfos).2 in
  length committeeRank = (length candidateInfos `min` size)%nat /\
  length proportion = (length candidateInfos `min` size)%nat /\
  exists st',
    updateSpecialBlock config header st
    = Ok (extra.SetHeaderCommitteeRankList header committeeRank proportion, st').
Proof.
  intros HA HS Hepoch Hmax blockNumber candidateInfos Hlen Hmod size committeeRank proportion.
  destruct (Rank_lengths HA HS candidateInfos) as [Hr Hp].
  subst committeeRank proportion. rewrite !length_take, Hr, Hp.
  split; [lia|]. split; [lia|].
  unfold updateSpecialBlock. fold blockNumber.
  unfold Go.rem64, Go.mul64, epochPerYear.
  rewrite (to_uint64_small (12 * Epoch config)) by lia.
  destruct (Z.eqb_spec (Epoch config) 0); [lia|].
  destruct (Z.eqb_spec (12 * Epoch config) 0); [lia|].
  cbn [mbind result_bind]. rewrite Hmod. simpl (0 =? 0). fold candidateInfos.
  destruct (Rank candidateInfos) as [rank prop] eqn:HRank. simpl in Hr, Hp |- *.
  rewrite to_uint64_small by lia.
  destruct (Z.leb_spec (Z.of_nat (length candidateInfos)) (CommitteeMaxSize config)).
  - rewrite !take_ge by lia. by destruct (_ =? 0); eexists.
  - fold size. by destruct (_ =? 0); eexists.
Qed.

Lemma updateSpecialBlock_committee_witness :
  let header := doubles.mkHeader 20 60 doubles.signedPayload in
  let st := {| balances := ∅; candidates := [];
               heftLastDiff := fun _ _ => 0;
               candidatesInfoInRange := fun _ _ => doubles.trio;
               alreadyBackStakeList := [] |} in
  let config := {| Epoch := 10; BlockInterval := 10; ElectionPeriod := 1; ValidPeriod := 1;
                   CurrencyRates := 10; CommitteeMaxSize := 2 |} in
  big.Uint64 (Number header) mod Epoch config = 0 /\
  length (take 2 (@Rank doubles.ops doubles.trio).1) = 2%nat.
Proof.
  intros header st config.
  split; [by vm_compute|].
  refine (proj1 (@updateSpecialBlock_committee doubles.ops doubles.codec config header st
                   _ sortByStake_Permutation _ _ _ _)).
  - reflexivity.
  - by vm_compute.
  - by vm_compute.
  - by vm_compute.
  - by vm_compute.
Defined.

Lemma sum_quotients_ge (total : Z) (l : list Z) :
  0 < total ->
  sumZ l <= total * sumZ ((fun a => a / total) <$> l) + Z.of_nat (length l) * (total - 1).
Proof.
  intros Htotal. induction l as [|a l IH]; [cbn; lia|].
  rewrite fmap_cons, !sumZ_cons. cbn [length]. rewrite Nat2Z.inj_succ.
  pose proof (Z.div_mod a total ltac:(lia)).
  pose proof (Z.mod_pos_bound a total Htotal). nia.
Qed.

Lemma totalStake_range (l : list CandidateInfo) : 0 <= totalStake l < 2 ^ 64.
Proof. rewrite totalStake_sum. apply to_uint64_range. Qed.

(** X13: whenever the running total of the stakes is not zero, [Rank]
    neither drops nor invents a candidate: the address list is the
    signers of the sorted candidates, a rearrangement of the candidates'
    signers, and every proportion is a [uint64]. *)
Theorem Rank_keeps_candidates `{CandidateOps} (candidateInfos : list CandidateInfo) :
  (forall l, length (Apply l) = length l) ->
  (forall l, Sort l ≡ₚ l) ->
  totalStake (Apply candidateInfos) <> 0 ->
  (Rank candidateInfos).1 = Signer <$> Sort (Apply candidateInfos) /\
  (Rank candidateInfos).1 ≡ₚ Signer <$> Apply candidateInfos /\
  Forall (fun p => 0 <= p < 2 ^ 64) (Rank candidateInfos).2.
Proof.
  intros HA HS Htotal. rewrite (Rank_nonzero HS _ Htotal). simpl.
  split; [done|]. split; [by rewrite (HS _)|].
  apply Forall_fmap, Forall_forall. intros c _. simpl.
  pose proof (totalStake_range (Apply candidateInfos)) as Hrange.
  pose proof (to_uint64_range (Stake c * Go.to_uint64 base)) as Hmul.
  unfold Go.mul64. split.
  - apply Z.div_pos; lia.
  - apply Z.div_lt_upper_bound; nia.
Qed.

Lemma Rank_keeps_candidates_witness :
  totalStake (@Apply doubles.ops doubles.trio) <> 0 /\
  (@Rank doubles.ops doubles.trio).1 ≡ₚ Signer <$> doubles.trio.
Proof.
  assert (Htotal : totalStake (@Apply doubles.ops doubles.trio) <> 0) by (by vm_compute).
  split; [exact Htotal|].
  exact (proj1 (proj2 (@Rank_keeps_candidates doubles.ops doubles.trio
                         (fun l => eq_refl) sortByStake_Permutation Htotal))).
Defined.

(** X14: truncation costs less than one unit per candidate.  For a
    candidate set with positive total stake whose total times 10000 fits
    in 64 bits, the proportions [Rank] returns sum to more than 10000
    minus the number of candidates. *)
Theorem Rank_truncation_loss `{CandidateOps} (candidateInfos : list CandidateInfo) :
  (forall l, length (Apply l) = length l) ->
  (forall l, Sort l ≡ₚ l) ->
  Forall (fun c => 0 <= Stake c) (Apply candidateInfos) ->
  0 < sumStakes (Apply candidateInfos) ->
  sumStakes (Apply candidateInfos) * base < 2 ^ 64 ->
  base - Z.of_nat (length candidateInfos) < sumZ (Rank candidateInfos).2.
Proof.
  intros HA HS Hnonneg Hpos Hfit.
  rewrite (Rank_exact HS _ Hnonneg Hpos Hfit). simpl.
  set (ranked := Sort (Apply candidateInfos)).
  set (total := sumStakes (Apply candidateInfos)) in *.
  pose proof (sum_quotients_ge total ((fun c => Stake c * base) <$> ranked) Hpos) as Hsum.
  rewrite <- list_fmap_compose, sumZ_scaled_stakes, length_fmap in Hsum.
  subst ranked. rewrite (sumStakes_Permutation _ _ (HS _)) in Hsum.
  rewrite (ranked_length HA HS) in Hsum. fold total in Hsum.
  change ((fun a => a / total) ∘ (fun c => Stake c * base))
    with (fun c => Stake c * base / total) in Hsum.
  destruct candidateInfos as [|c rest].
  - exfalso. specialize (HA []). simpl in HA. apply length_zero_iff_nil in HA.
    subst total. rewrite HA in Hpos. by vm_compute in Hpos.
  - cbn [length] in *. nia.
Qed.

Lemma Rank_truncation_loss_witness :
  let thirds := [doubles.candidate doubles.alice 1; doubles.candidate doubles.bob 1;
                 doubles.candidate doubles.carol 1] in
  0 < sumStakes (@Apply doubles.ops thirds) /\
  sumZ (@Rank doubles.ops thirds).2 = 9999 /\
  base - 3 < sumZ (@Rank doubles.ops thirds).2.
Proof.
  intros thirds.
  split; [reflexivity|]. split; [reflexivity|].
  apply (@Rank_truncation_loss doubles.ops thirds).
  - reflexivity.
  - apply sortByStake_Permutation.
  - repeat constructor; discriminate.
  - reflexivity.
  - reflexivity.
Defined.

(** ** Coefficients and per-block rewards *)

Lemma big_Div_nonzero (x y : Z) : y <> 0 -> exists q, big.Div x y = Ok q.
Proof. intros Hy. unfold big.Div. destruct (Z.eqb_spec y 0); [done|by eexists]. Qed.

Lemma big_Div_zero_dividend (y : Z) : y <> 0 -> big.Div 0 y = Ok 0.
Proof.
  intros Hy. unfold big.Div. destruct (Z.eqb_spec y 0); [done|].
  by destruct (0 <? y).
Qed.

Lemma big_Cmp_zero (x : Z) : (big.Cmp x (big.NewInt 0) =? 0) = (x =? 0).
Proof.
  change (big.NewInt 0) with 0. unfold big.Cmp.
  destruct (Z.compare_spec x 0), (Z.eqb_spec x 0); done || lia.
Qed.

Lemma getCoinCofficient_outcome (config : GenaroConfig) (paid surplus : Z) :
  (paid = 0 -> getCoinCofficient config paid surplus = Ok base) /\
  (paid <> 0 -> Go.to_int64 (Epoch config) = 0 ->
   getCoinCofficient config paid surplus = Panic) /\
  (paid <> 0 -> Go.to_int64 (Epoch config) <> 0 ->
   exists k, getCoinCofficient config paid surplus = Ok k /\ 0 <= k < 2 ^ 64).
Proof.
  unfold getCoinCofficient. rewrite big_Cmp_zero.
  destruct (Z.eqb_spec paid 0) as [->|Hpaid].
  - split; [done|]. split; intros; done.
  - split; [done|].
    rewrite (big_Div_pos _ (big.NewInt base)) by (by vm_compute).
    cbn [mbind result_bind].
    rewrite (big_Div_pos _ (big.NewInt ratioPerYear)) by (by vm_compute).
    cbn [mbind result_bind].
    change (big.NewInt (Epoch config)) with (Go.to_int64 (Epoch config)).
    split; intros _ Hepoch.
    + by rewrite Hepoch.
    + match goal with
      | |- context [big.Div ?x (Go.to_int64 (Epoch config))] =>
          destruct (big_Div_nonzero x _ Hepoch) as [q ->]
      end.
      cbn [mbind result_bind].
      destruct (big_Div_nonzero (big.Mul q (big.NewInt base)) paid Hpaid) as [k ->].
      cbn [mbind result_bind]. eexists. split; [done|].
      unfold big.Uint64. apply Z.mod_pos_bound. lia.
Qed.

(** X15: the coefficient functions guard the amount paid and nothing
    else.  With nothing paid they return [base] whatever the epoch length
    is; with something paid they panic on a division by zero exactly when
    the epoch length is zero as an [int64], and otherwise return a
    [uint64]; they never return an error, and the storage coefficient is
    the coin coefficient. *)
Theorem coefficient_outcomes (config : GenaroConfig) (paid surplus : Z) :
  getStorageCoefficient config paid surplus = getCoinCofficient config paid surplus /\
  (paid = 0 -> getCoinCofficient config paid surplus = Ok base) /\
  (getCoinCofficient config paid surplus = Panic
   <-> paid <> 0 /\ Go.to_int64 (Epoch config) = 0) /\
  (forall err, getCoinCofficient config paid surplus <> Err err) /\
  (forall k, getCoinCofficient config paid surplus = Ok k -> 0 <= k < 2 ^ 64).
Proof.
  destruct (getCoinCofficient_outcome config paid surplus) as (Hzero & Hpanic & Hok).
  split; [reflexivity|]. split; [done|].
  destruct (Z.eq_dec paid 0) as [Hp|Hp].
  - rewrite (Hzero Hp). split; [split; [done|by intros [? _]]|].
    split; [done|]. by intros ? [= <-].
  - destruct (Z.eq_dec (Go.to_int64 (Epoch config)) 0) as [He|He].
    + rewrite (Hpanic Hp He). split; [done|]. split; done.
    + destruct (Hok Hp He) as (k & -> & Hk).
      split; [split; [done|by intros [_ ?]]|].
      split; [done|]. by intros ? [= <-].
Qed.

Ltac bind_ok H :=
  match type of H with
  | mbind _ ?m = Ok _ =>
      let E := fresh "Hstep" in
      destruct m eqn:E; cbn [mbind result_bind] in H; [|discriminate H..]
  end.

Lemma big_Div_of_zero (y q : Z) : big.Div 0 y = Ok q -> q = 0.
Proof.
  unfold big.Div. destruct (y =? 0); [done|].
  destruct (0 <? y); intros [= <-]; by rewrite Zdiv_0_l.
Qed.

Lemma interestBlockReward_zero_proportion (config : GenaroConfig) (st : StateDB)
    (blockNumber reward : Z) :
  interestBlockReward config st 0 blockNumber = Ok reward -> reward = 0.
Proof.
  unfold interestBlockReward. intros Hrun.
  do 5 bind_ok Hrun.
  change (big.NewInt 0) with 0 in Hrun. unfold big.Mul in Hrun. rewrite Z.mul_0_r in Hrun.
  rewrite (big_Div_pos 0 (big.NewInt base)) in Hrun by (by vm_compute).
  cbn [mbind result_bind] in Hrun. rewrite Zdiv_0_l in Hrun.
  bind_ok Hrun. injection Hrun as <-. by eapply big_Div_of_zero.
Qed.

Lemma writeThrough_copy (st : StateDB) (a : Address) (v : Z) : writeThrough false st a v = st.
Proof. done. Qed.

Lemma GetBalance_writeThrough_ne (shared : bool) (st : StateDB) (a b : Address) (v : Z) :
  a <> b -> GetBalance (writeThrough shared st a v) b = GetBalance st b.
Proof.
  intros Hne. unfold writeThrough. destruct shared; [|done].
  destruct (balances st !! a); [|done]. by apply GetBalance_SetBalance_ne.
Qed.

Lemma GetBalance_writeThrough_shared (st : StateDB) (a : Address) (v : Z) :
  is_Some (balances st !! a) -> GetBalance (writeThrough true st a v) a = v.
Proof.
  intros [old Hold]. unfold writeThrough. rewrite Hold. apply GetBalance_SetBalance_eq.
Qed.

Lemma writeThrough_lists (shared : bool) (st : StateDB) (a : Address) (v : Z) :
  candidates (writeThrough shared st a v) = candidates st /\
  alreadyBackStakeList (writeThrough shared st a v) = alreadyBackStakeList st /\
  heftLastDiff (writeThrough shared st a v) = heftLastDiff st.
Proof.
  unfold writeThrough. destruct shared; [|done]. by destruct (balances st !! a).
Qed.

(** On a ledger whose reads hand out copies the two functions are the
    ones modelled before. *)
Lemma accumulateRewardsOn_copy (config : GenaroConfig) (st : StateDB) (header : Header)
    (proportion blockNumber : Z) :
  accumulateInterestRewardsOn false config st header proportion blockNumber
  = accumulateInterestRewards config st header proportion blockNumber /\
  accumulateStorageRewardsOn false config st blockNumber
  = accumulateStorageRewards config st blockNumber.
Proof. done. Qed.

(** X16: [accumulateInterestRewards] credits one amount twice, to the
    block author and to the coin counter, and whether balance reads hand
    out the ledger's cell or a copy it changes the balance of no account
    other than these two and the surplus pool, nor the candidate and
    pending lists; for a proportion of 0, which is what an author outside
    the committee map has, the amount is 0 and every balance but the
    pool's stays as it was.  The pool's account is untouched when reads
    hand out copies, and holds the reward instead of the pool when they
    hand out the cell. *)
Theorem accumulateInterestRewards_accounting (shared : bool) (config : GenaroConfig)
    (st st' : StateDB) (header : Header) (proportion blockNumber : Z) :
  accumulateInterestRewardsOn shared config st header proportion blockNumber = Ok st' ->
  exists reward,
    interestBlockReward config st proportion blockNumber = Ok reward /\
    (forall a,
       a <> nameAddress SurplusCoinAddress ->
       GetBalance st' a
       = GetBalance st a
         + (if decide (Coinbase header = a) then reward else 0)
         + (if decide (nameAddress CoinActualRewardsAddress = a) then reward else 0)) /\
    (proportion = 0 ->
     reward = 0 /\
     forall a, a <> nameAddress SurplusCoinAddress -> GetBalance st' a = GetBalance st a) /\
    (shared = false ->
     GetBalance st' (nameAddress SurplusCoinAddress)
     = GetBalance st (nameAddress SurplusCoinAddress)
       + (if decide (Coinbase header = nameAddress SurplusCoinAddress) then reward else 0)) /\
    (shared = true ->
     is_Some (balances st !! nameAddress SurplusCoinAddress) ->
     GetBalance st' (nameAddress SurplusCoinAddress)
     = reward
       + (if decide (Coinbase header = nameAddress SurplusCoinAddress) then reward else 0)) /\
    alreadyBackStakeList st' = alreadyBackStakeList st /\
    candidates st' = candidates st.
Proof.
  unfold accumulateInterestRewardsOn. intros Hrun. bind_ok Hrun.
  injection Hrun as <-. rename a into reward. exists reward.
  split; [done|].
  set (st1 := writeThrough shared st (nameAddress SurplusCoinAddress) reward).
  assert (Hbal : forall a,
            GetBalance (AddBalance (AddBalance st1 (Coinbase header) reward)
                          (nameAddress CoinActualRewardsAddress) reward) a
            = GetBalance st1 a
              + (if decide (Coinbase header = a) then reward else 0)
              + (if decide (nameAddress CoinActualRewardsAddress = a) then reward else 0)).
  { intros a. rewrite !GetBalance_AddBalance. lia. }
  assert (Hother : forall a, a <> nameAddress SurplusCoinAddress ->
            GetBalance st1 a = GetBalance st a).
  { intros a Ha. subst st1. by apply GetBalance_writeThrough_ne. }
  assert (Hcounter : nameAddress CoinActualRewardsAddress <> nameAddress SurplusCoinAddress)
    by (by vm_compute).
  split; [intros a Ha; by rewrite Hbal, Hother|].
  split.
  { intros ->. apply interestBlockReward_zero_proportion in Hstep. subst reward.
    split; [done|]. intros a Ha. rewrite Hbal, Hother by done.
    destruct (decide _), (decide _); lia. }
  split.
  { intros ->. rewrite Hbal. subst st1. rewrite writeThrough_copy.
    destruct (decide (nameAddress CoinActualRewardsAddress = _)); [done|lia]. }
  split.
  { intros -> Hexists. rewrite Hbal. subst st1.
    rewrite GetBalance_writeThrough_shared by done.
    destruct (decide (nameAddress CoinActualRewardsAddress = _)); [done|lia]. }
  destruct (writeThrough_lists shared st (nameAddress SurplusCoinAddress) reward)
    as (Hc & Hp & _).
  split; [exact Hp|exact Hc].
Qed.

Lemma accumulateInterestRewards_accounting_witness :
  let st := doubles.storageLedger in
  let header := doubles.mkHeader 7 60 doubles.signedPayload in
  exists st',
    accumulateInterestRewardsOn true doubles.cfg st header 5000 7 = Ok st' /\
    GetBalance st' (nameAddress CoinActualRewardsAddress) = 5000 /\
    GetBalance st' (nameAddress SurplusCoinAddress) = 5000.
Proof.
  intros st header.
  destruct (accumulateInterestRewardsOn true doubles.cfg st header 5000 7)
    as [st'| |] eqn:Hrun; [|by vm_compute in Hrun..].
  exists st'. split; [done|].
  destruct (accumulateInterestRewards_accounting true doubles.cfg st st' header 5000 7 Hrun)
    as (reward & Hreward & Hbal & _ & _ & Hshared & _).
  vm_compute in Hreward. injection Hreward as <-. split.
  - rewrite Hbal by (by vm_compute). vm_compute. reflexivity.
  - rewrite Hshared; [vm_compute; reflexivity|reflexivity|vm_compute; by eexists].
Defined.

Lemma occurrences_absent (a : Address) (cs : list Address) : a ∉ cs -> occurrences a cs = 0.
Proof.
  induction cs as [|c cs IH]; intros Hnotin; [done|].
  apply not_elem_of_cons in Hnotin as [Hne Hrest]. simpl.
  destruct (decide (c = a)); [congruence|]. by rewrite IH.
Qed.

Lemma occurrences_NoDup (a : Address) (cs : list Address) :
  NoDup cs -> a ∈ cs -> occurrences a cs = 1.
Proof.
  induction 1 as [|c cs Hnotin _ IH]; intros Hin.
  - by apply elem_of_nil in Hin.
  - simpl. destruct (decide (c = a)) as [->|Hne].
    + by rewrite occurrences_absent.
    + apply elem_of_cons in Hin as [?|Hin]; [congruence|]. by rewrite IH.
Qed.

Lemma sumZ_constant (q : Z) (cs : list Address) (f : Address -> Z) :
  (forall c, c ∈ cs -> f c = q) -> sumZ (f <$> cs) = q * Z.of_nat (length cs).
Proof.
  induction cs as [|c cs IH]; intros Hf; [cbn; lia|].
  rewrite fmap_cons, sumZ_cons.
  rewrite IH by (intros c' Hc'; apply Hf, elem_of_cons; by right).
  rewrite (Hf c) by (apply elem_of_cons; by left).
  cbn [length]. lia.
Qed.

(** What a run of [accumulateStorageRewards] that returns does to the
    balances, on either kind of ledger: after the in-place arithmetic,
    nothing, or the same quotient to every listed candidate. *)
Lemma accumulateStorageRewardsOn_credits (shared : bool) (config : GenaroConfig)
    (st st' : StateDB) (blockNumber : Z) :
  accumulateStorageRewardsOn shared config st blockNumber = Ok st' ->
  exists q blockReward,
    storageBlockReward config st blockNumber = Ok blockReward /\
    forall a,
      GetBalance st' a
      = GetBalance (writeThrough shared st (nameAddress SurplusCoinAddress) blockReward) a
        + q * occurrences a (GetCandidates st)
        + (if decide (nameAddress StorageActualRewardsAddress = a)
           then q * Z.of_nat (length (GetCandidates st)) else 0).
Proof.
  unfold accumulateStorageRewardsOn. intros Hrun. bind_ok Hrun.
  rename a into blockReward.
  set (st1 := writeThrough shared st (nameAddress SurplusCoinAddress) blockReward) in *.
  destruct (writeThrough_lists shared st (nameAddress SurplusCoinAddress) blockReward)
    as (Hc & _ & _).
  fold st1 in Hc. unfold GetCandidates in *. rewrite Hc in Hrun.
  destruct (_ =? 0).
  - injection Hrun as <-. exists 0, blockReward. split; [done|].
    intros a. subst st1. destruct (decide _); lia.
  - set (total := totalContribution _) in Hrun.
    destruct (big.Div blockReward (big.NewInt total)) as [q|err|] eqn:Hq.
    + destruct (allocateBlockReward_credits blockReward total q (candidates st) Hq
                  (contributions st1 blockNumber (candidates st)) st1)
        as (st2 & Hrun2 & Hbal).
      { unfold contributions. by rewrite length_fmap. }
      rewrite Hrun2 in Hrun. injection Hrun as <-. by exists q, blockReward.
    + unfold big.Div in Hq. destruct (_ =? 0); [done|]. by destruct (0 <? _).
    + destruct (candidates st) as [|c cs] eqn:Hcs.
      * injection Hrun as <-. exists 0, blockReward. split; [done|].
        intros a. subst st1. simpl. destruct (decide _); lia.
      * simpl in Hrun. by rewrite Hq in Hrun.
Qed.

(** X17: the storage counter keeps step with the payouts, whether balance
    reads hand out the ledger's cell or a copy.  Whenever
    [accumulateStorageRewards] returns, with candidates listed once each
    and neither the counter's account nor the surplus pool's among them,
    the storage counter has grown by exactly the sum of what the
    candidates were credited, and an account that is neither a candidate,
    nor the counter, nor the surplus pool is unchanged.  The pool's
    account is unchanged when reads hand out copies, and holds the
    per-block reward instead of the pool when they hand out the cell,
    also when the total contribution is zero and nothing is paid. *)
Theorem accumulateStorageRewards_accounting (shared : bool) (config : GenaroConfig)
    (st st' : StateDB) (blockNumber : Z) :
  NoDup (GetCandidates st) ->
  nameAddress StorageActualRewardsAddress ∉ GetCandidates st ->
  nameAddress SurplusCoinAddress ∉ GetCandidates st ->
  accumulateStorageRewardsOn shared config st blockNumber = Ok st' ->
  GetBalance st' (nameAddress StorageActualRewardsAddress)
  - GetBalance st (nameAddress StorageActualRewardsAddress)
  = sumZ ((fun c => GetBalance st' c - GetBalance st c) <$> GetCandidates st) /\
  (forall a, a ∉ GetCandidates st ->
             a <> nameAddress StorageActualRewardsAddress ->
             a <> nameAddress SurplusCoinAddress ->
             GetBalance st' a = GetBalance st a) /\
  (shared = false ->
   GetBalance st' (nameAddress SurplusCoinAddress)
   = GetBalance st (nameAddress SurplusCoinAddress)) /\
  (shared = true ->
   is_Some (balances st !! nameAddress SurplusCoinAddress) ->
   exists blockReward,
     storageBlockReward config st blockNumber = Ok blockReward /\
     GetBalance st' (nameAddress SurplusCoinAddress) = blockReward).
Proof.
  intros Hnodup Hcounter Hpool Hrun.
  destruct (accumulateStorageRewardsOn_credits shared config st st' blockNumber Hrun)
    as (q & blockReward & Hreward & Hbal).
  assert (Hne : nameAddress SurplusCoinAddress <> nameAddress StorageActualRewardsAddress)
    by (by vm_compute).
  split; [|split; [|split]].
  - rewrite (sumZ_constant q).
    + rewrite Hbal, occurrences_absent, GetBalance_writeThrough_ne by done.
      destruct (decide _); [lia|done].
    + intros c Hc. rewrite Hbal, (occurrences_NoDup c _ Hnodup Hc).
      rewrite GetBalance_writeThrough_ne by (intros Heq; by rewrite Heq in Hpool).
      destruct (decide (nameAddress StorageActualRewardsAddress = c)) as [Heq|_];
        [by rewrite Heq in Hcounter|lia].
  - intros a Ha Hnc Hnp. rewrite Hbal, occurrences_absent by done.
    rewrite GetBalance_writeThrough_ne by done.
    destruct (decide _); [congruence|lia].
  - intros ->. rewrite Hbal, occurrences_absent, writeThrough_copy by done.
    destruct (decide _); [congruence|lia].
  - intros -> Hexists. exists blockReward. split; [done|].
    rewrite Hbal, occurrences_absent, GetBalance_writeThrough_shared by done.
    destruct (decide _); [congruence|lia].
Qed.

Lemma accumulateStorageRewards_accounting_witness :
  let st := doubles.storageLedger in
  NoDup (GetCandidates st) /\
  exists st',
    accumulateStorageRewardsOn true doubles.cfg st 7 = Ok st' /\
    GetBalance st' (nameAddress StorageActualRewardsAddress)
    - GetBalance st (nameAddress StorageActualRewardsAddress)
    = sumZ ((fun c => GetBalance st' c - GetBalance st c) <$> GetCandidates st).
Proof.
  intros st.
  assert (Hnodup : NoDup (GetCandidates st))
    by (apply (bool_decide_unpack _); by vm_compute).
  split; [exact Hnodup|].
  destruct (accumulateStorageRewardsOn true doubles.cfg st 7) as [st'| |] eqn:Hrun;
    [|by vm_compute in Hrun..].
  exists st'. split; [done|].
  refine (proj1 (accumulateStorageRewards_accounting true doubles.cfg st st' 7
                   Hnodup _ _ Hrun)); apply (bool_decide_unpack _); by vm_compute.
Defined.

(** On a ledger whose reads hand out the cell, a block with a reward of
    10000 leaves the surplus pool at 10000, down from 9600000, and the
    interest reward of 5000 leaves it at 5000; on a ledger whose reads
    hand out copies the pool stays at 9600000. *)
Example surplus_pool_after_rewards :
  let st := doubles.storageLedger in
  let header := doubles.mkHeader 7 60 doubles.signedPayload in
  let pool := fun r : result StateDB =>
    match r with
    | Ok st' => Some (GetBalance st' (nameAddress SurplusCoinAddress))
    | _ => None
    end in
  pool (accumulateStorageRewardsOn true doubles.cfg st 7) = Some 10000 /\
  pool (accumulateStorageRewardsOn false doubles.cfg st 7) = Some 9600000 /\
  pool (accumulateInterestRewardsOn true doubles.cfg st header 5000 7) = Some 5000 /\
  pool (accumulateInterestRewardsOn false doubles.cfg st header 5000 7) = Some 9600000.
Proof. by vm_compute. Qed.

(** ** Preparing, and the difficulty query *)

Lemma CalcDifficulty_range (snap : CommitteeSnapshot) (addr : Address) (blockNumber : Z) :
  0 <= CalcDifficulty snap addr blockNumber < 2 ^ 64.
Proof.
  unfold CalcDifficulty. destruct (_ <? 0); [lia|]. apply to_uint64_range.
Qed.

(** X18: [Prepare] writes the coinbase, the nonce, the difficulty, the
    mix digest and the timestamp and no other field: parent hash, number,
    extension payload, roots, bloom and gas fields come back as they went
    in on every path.  The coinbase is the engine's signer and the nonce
    is blank even when it fails; on success the mix digest is blank and
    the difficulty is a [uint64]; when the parent is unknown the timestamp
    is left as it was. *)
Theorem Prepare_frame {Cache DB : Type}
    `{extra.CommitteeCodec} `{EpochHelpers} `{SnapshotStore Cache DB}
    (chain : ChainReader) (now : Z) (g : Genaro Cache DB) (header : Header) :
  let out := Prepare chain now g header in
  (ParentHash out.2 = ParentHash header /\ UncleHash out.2 = UncleHash header /\
   Root out.2 = Root header /\ TxHash out.2 = TxHash header /\
   ReceiptHash out.2 = ReceiptHash header /\ Bloom out.2 = Bloom header /\
   Number out.2 = Number header /\ GasLimit out.2 = GasLimit header /\
   GasUsed out.2 = GasUsed header /\ Extra out.2 = Extra header) /\
  Coinbase out.2 = signer g /\
  Nonce out.2 = zeroNonce /\
  (out.1.1 = Ok () ->
   MixDigest out.2 = common.zeroHash /\ 0 <= Difficulty out.2 < 2 ^ 64) /\
  (out.1.1 = Err ErrUnknownAncestor -> Time out.2 = Time header).
Proof.
  intros out. subst out. unfold Prepare. simpl.
  destruct (snapshot chain _ g) as [[snap|err|] g1] eqn:Hsnap; simpl;
    [|repeat split; done..].
  destruct (GetHeader chain _ _) as [parent|]; simpl.
  - destruct (_ <? _); simpl; repeat split; try done; apply CalcDifficulty_range.
  - repeat split; try done; apply CalcDifficulty_range.
Qed.

(** X19: the difficulty query and [Prepare] agree.  For a header numbered
    one above [parent], the difficulty [Prepare] writes on success is the
    difficulty the engine's [CalcDifficulty] method reports for [parent]
    from the same engine state, and both leave the engine in the same
    state. *)
Theorem Prepare_difficulty_is_CalcDifficulty {Cache DB : Type}
    `{extra.CommitteeCodec} `{EpochHelpers} `{SnapshotStore Cache DB}
    (chain : ChainReader) (now time : Z) (g : Genaro Cache DB) (header parent : Header) :
  big.Uint64 (Number header) = Go.add64 (big.Uint64 (Number parent)) 1 ->
  (Prepare chain now g header).1.1 = Ok () ->
  Genaro_CalcDifficulty chain time g parent
  = (Ok (Some (Difficulty (Prepare chain now g header).2)), (Prepare chain now g header).1.2).
Proof.
  intros Hnumber Hok. unfold Genaro_CalcDifficulty, Prepare in *. simpl in *.
  rewrite <- Hnumber.
  destruct (snapshot chain _ g) as [[snap|err|] g1]; simpl in *; try discriminate.
  destruct (GetHeader chain _ _) as [p|]; simpl in *; try discriminate.
  by destruct (_ <? _).
Qed.

Lemma Prepare_difficulty_is_CalcDifficulty_witness :
  let header := doubles.mkHeader 5 0 doubles.signedPayload in
  let parent := doubles.mkHeader 4 100 doubles.signedPayload in
  let out := @Prepare _ _ fixtures.codec doubles.helpers doubles.snapshots
               (doubles.chain 100) 90 fixtures.engine header in
  out.1.1 = Ok () /\
  Difficulty out.2 = 1 /\
  @Genaro_CalcDifficulty _ _ fixtures.codec doubles.helpers doubles.snapshots
    (doubles.chain 100) 0 fixtures.engine parent
  = (Ok (Some (Difficulty out.2)), out.1.2).
Proof.
  intros header parent out.
  split; [reflexivity|]. split; [reflexivity|].
  apply (@Prepare_difficulty_is_CalcDifficulty _ _ fixtures.codec doubles.helpers
           doubles.snapshots (doubles.chain 100) 90 0 fixtures.engine header parent).
  - reflexivity.
  - reflexivity.
Defined.

(** ** Maturation, again *)

Lemma filter_twice {A : Type} (f : A -> bool) (l : list A) :
  List.filter f (List.filter f l) = List.filter f l.
Proof.
  induction l as [|x l IH]; [done|]. simpl.
  destruct (f x) eqn:Hx; simpl; [|done]. by rewrite Hx, IH.
Qed.

(** X20: the maturation pass settles in one run.  [handleAlreadyBackStakeList]
    keeps exactly the entries that have not matured, in their order, and
    touches nothing but the pending list; run again at the same block on
    the ledger it returned, it returns that ledger unchanged. *)
Theorem handleAlreadyBackStakeList_settles `{EpochHelpers}
    (config : GenaroConfig) (header : Header) (st : StateDB) :
  exists st',
    handleAlreadyBackStakeList config header st = Some st' /\
    handleAlreadyBackStakeList config header st' = Some st' /\
    (forall back,
       In back (GetAlreadyBackStakeList st') <->
       In back (GetAlreadyBackStakeList st) /\
       IsBackStakeBlockNumber config (BackBlockNumber back) (big.Uint64 (Number header))
       = false) /\
    (length (GetAlreadyBackStakeList st') <= length (GetAlreadyBackStakeList st))%nat /\
    balances st' = balances st /\
    candidates st' = candidates st.
Proof.
  eexists. split; [apply handleAlreadyBackStakeList_filter|].
  split; [|split; [|split]].
  - rewrite handleAlreadyBackStakeList_filter. simpl.
    unfold GetAlreadyBackStakeList. simpl. by rewrite filter_twice.
  - intros back. unfold GetAlreadyBackStakeList. simpl.
    rewrite List.filter_In. unfold pendingAt. by rewrite negb_true_iff.
  - unfold GetAlreadyBackStakeList. simpl. apply List.filter_length_le.
  - done.
Qed.

(** ** Finalisation *)

Lemma snapshot_engine {Cache DB : Type}
    `{extra.CommitteeCodec} `{EpochHelpers} `{SnapshotStore Cache DB}
    (chain : ChainReader) (epollNumber : Z) (g g1 : Genaro Cache DB)
    (r : result CommitteeSnapshot) :
  snapshot chain epollNumber g = (r, g1) -> config g1 = config g /\ signer g1 = signer g.
Proof.
  unfold snapshot. intros Hrun.
  destruct (recentsGet (recents g) epollNumber) as [hit c].
  match type of Hrun with
  | context [match ?b with Ok _ => _ | Err _ => _ | Panic => _ end] =>
      destruct b as [[snap isNew]|err|]
  end; try (by injection Hrun as <- <-).
  destruct isNew; [|by injection Hrun as <- <-].
  by destruct (store snap _) as [[err|] d]; injection Hrun as <- <-.
Qed.

Lemma allocateBlockReward_pending (blockReward total : Z) (cs : list Address) :
  forall (contributes : list Z) (st st' : StateDB),
    allocateBlockReward blockReward total cs contributes st = Ok st' ->
    alreadyBackStakeList st' = alreadyBackStakeList st.
Proof.
  induction cs as [|c cs IH]; intros contributes st st' Hrun.
  - simpl in Hrun. by injection Hrun as <-.
  - destruct contributes as [|contribute contributes].
    + simpl in Hrun. by injection Hrun as <-.
    + cbn [allocateBlockReward] in Hrun. bind_ok Hrun.
      by rewrite (IH _ _ _ Hrun).
Qed.

Lemma accumulateStorageRewards_pending (config : GenaroConfig) (st st' : StateDB)
    (blockNumber : Z) :
  accumulateStorageRewards config st blockNumber = Ok st' ->
  alreadyBackStakeList st' = alreadyBackStakeList st.
Proof.
  unfold accumulateStorageRewards. intros Hrun. bind_ok Hrun.
  destruct (_ =? 0); [by injection Hrun as <-|].
  by apply allocateBlockReward_pending in Hrun.
Qed.

Lemma accumulateInterestRewards_pending (config : GenaroConfig) (st st' : StateDB)
    (header : Header) (proportion blockNumber : Z) :
  accumulateInterestRewards config st header proportion blockNumber = Ok st' ->
  alreadyBackStakeList st' = alreadyBackStakeList st.
Proof.
  unfold accumulateInterestRewards. intros Hrun. bind_ok Hrun. by injection Hrun as <-.
Qed.

Lemma updateSpecialBlock_pending `{CandidateOps} `{extra.CommitteeCodec}
    (config : GenaroConfig) (header header' : Header) (st st' : StateDB) :
  (forall h r p, Number (extra.SetHeaderCommitteeRankList h r p) = Number h) ->
  updateSpecialBlock config header st = Ok (header', st') ->
  alreadyBackStakeList st' = alreadyBackStakeList st /\ Number header' = Number header.
Proof.
  intros Hnumber. unfold updateSpecialBlock. intros Hrun. bind_ok Hrun.
  destruct (a =? 0).
  - destruct (Rank _) as [commiteeRank proportion].
    bind_ok Hrun.
    destruct (_ <=? _), (_ =? 0); injection Hrun as <- <-; by rewrite Hnumber.
  - bind_ok Hrun. by destruct (_ =? 0); injection Hrun as <- <-.
Qed.

(** X21: what a finalised block is made of.  Whenever [Finalize] returns
    a block (the committee codec leaving the header's number alone), the
    block carries the transactions and receipts it was given and no
    uncles, whatever uncles were passed; its header has the number it came
    with, the uncle hash of the empty list and the state root of the
    ledger as [Finalize] leaves it; and that ledger's pending withdrawal
    list is the old list without the entries matured at this block. *)
Theorem Finalize_block {Cache DB Tx Receipt : Type}
    `{extra.CommitteeCodec} `{EpochHelpers} `{SnapshotStore Cache DB}
    `{CandidateOps} `{BlockAssembly}
    (chain : ChainReader) (g g1 : Genaro Cache DB) (header : Header) (st st' : StateDB)
    (txs : list Tx) (uncles : list Header) (receipts : list Receipt)
    (block : Block Tx Receipt) :
  (forall h r p, Number (extra.SetHeaderCommitteeRankList h r p) = Number h) ->
  Finalize chain g header st txs uncles receipts = (Ok block, g1, st') ->
  blockTxs block = txs /\
  blockReceipts block = receipts /\
  blockUncles block = [] /\
  Number (blockHeader block) = Number header /\
  UncleHash (blockHeader block) = CalcUncleHash [] /\
  Root (blockHeader block) = IntermediateRoot st' (IsEIP158 (Number header)) /\
  GetAlreadyBackStakeList st'
  = List.filter (pendingAt (config g) (big.Uint64 (Number header)))
                (GetAlreadyBackStakeList st).
Proof.
  intros Hnumber. unfold Finalize. intros Hrun.
  destruct (updateSpecialBlock (config g) header st) as [[header1 st1]|err|] eqn:Hspecial;
    [|done..].
  destruct (updateSpecialBlock_pending _ _ _ _ _ Hnumber Hspecial) as [Hp1 Hn1].
  destruct (snapshot chain _ g) as [[snap|err|] g2] eqn:Hsnap; [|done..].
  destruct (snapshot_engine _ _ _ _ _ Hsnap) as [Hconfig _].
  destruct (accumulateInterestRewards _ st1 _ _ _) as [st2|err|] eqn:Hinterest; [|done..].
  apply accumulateInterestRewards_pending in Hinterest.
  destruct (accumulateStorageRewards _ st2 _) as [st3|err|] eqn:Hstorage; [|done..].
  apply accumulateStorageRewards_pending in Hstorage.
  rewrite handleAlreadyBackStakeList_filter in Hrun.
  injection Hrun as <- <- <-. simpl.
  repeat split; try done.
  - by rewrite Hn1.
  - unfold GetAlreadyBackStakeList. by rewrite Hconfig, Hn1, Hstorage, Hinterest, Hp1.
Qed.

Lemma Finalize_block_witness :
  let header := doubles.mkHeader 7 60 doubles.signedPayload in
  let out := @Finalize _ _ unit unit fixtures.codec doubles.helpers doubles.snapshots
               doubles.ops fixtures.assembly (doubles.chain 50) fixtures.engine header
               doubles.storageLedger [()] [header] [] in
  exists block,
    out = (Ok block, out.1.2, out.2) /\
    blockTxs block = [()] /\ blockUncles block = [].
Proof.
  intros header out.
  destruct out as [[[block|err|] g1] st'] eqn:Hrun; [|by vm_compute in Hrun..].
  exists block. split; [done|].
  destruct (@Finalize_block _ _ unit unit fixtures.codec doubles.helpers doubles.snapshots
              doubles.ops fixtures.assembly (doubles.chain 50) fixtures.engine g1 header
              doubles.storageLedger st' [()] [header] [] block (fun _ _ _ => eq_refl) Hrun)
    as (Htxs & _ & Huncles & _).
  split; [exact Htxs|exact Huncles].
Defined.

(** ** The engine's configuration and signer *)

Section EngineInvariant.
Context {Cache DB : Type}.
Context `{Crypto} `{extra.CommitteeCodec} `{EpochHelpers} `{SnapshotStore Cache DB}.

Lemma Prepare_identity (chain : ChainReader) (now : Z) (g : Genaro Cache DB) (header : Header) :
  sameIdentity g (Prepare chain now g header).1.2.
Proof.
  unfold Prepare. simpl.
  destruct (snapshot chain _ g) as [[snap|err|] g1] eqn:Hsnap;
    apply snapshot_engine in Hsnap; simpl; try done.
  destruct (GetHeader chain _ _); [|done]. by destruct (_ <? _).
Qed.

Lemma VerifySeal_identity (chain : ChainReader) (now : Z) (g : Genaro Cache DB)
    (header : Header) :
  sameIdentity g (VerifySeal chain now g header).1.2.
Proof.
  unfold VerifySeal.
  destruct (_ =? 0); [done|]. destruct (_ >? 0); [done|]. cbv zeta.
  destruct (mbind _ (Go.rem64 _ _)) as [[]|err|]; [|done..].
  destruct (snapshot chain _ g) as [[snap|err|] g1] eqn:Hsnap;
    apply snapshot_engine in Hsnap; [|done..].
  destruct (ecrecover header) as [[signer|err|] header1]; [|done..].
  destruct (Committee snap !! signer); [|done].
  destruct (GetHeader chain _ _) as [parent|]; [|done].
  destruct (_ <? _); [done|]. destruct (inturn _ _ _); [done|].
  by destruct (_ >? _).
Qed.

Lemma Seal_identity (chain : ChainReader) (signFn : SignerFn) (jitter : Z)
    (stopped : Z -> bool) (g : Genaro Cache DB) (header : Header) :
  sameIdentity g (Seal chain signFn jitter stopped g header).2.
Proof.
  unfold Seal. destruct (_ =? 0); [done|].
  destruct (snapshot chain _ g) as [[snap|err|] g1] eqn:Hsnap;
    apply snapshot_engine in Hsnap; [|done..].
  destruct (stopped _); [done|]. by destruct (signFn _ _).
Qed.

End EngineInvariant.

(** X22: the engine [New] builds never has a zero epoch length (a zero
    in the given config is replaced by 5000, every other field kept), and
    no pipeline hook changes the engine's config or signer: after
    [Prepare], [VerifySeal] or [Seal], on any path, both are what they
    were; only [Authorize] replaces the signer, and it keeps the config. *)
Theorem engine_identity {Cache DB : Type}
    `{Crypto} `{extra.CommitteeCodec} `{EpochHelpers} `{SnapshotStore Cache DB}
    (conf : GenaroConfig) (snapshotDb : DB) (cache : Cache)
    (chain : ChainReader) (now jitter : Z) (signFn : SignerFn) (stopped : Z -> bool)
    (g : Genaro Cache DB) (header : Header) (who : Address) :
  Epoch (config (New conf snapshotDb cache)) <> 0 /\
  (Epoch conf <> 0 -> config (New conf snapshotDb cache) = conf) /\
  (Epoch conf = 0 ->
   Epoch (config (New conf snapshotDb cache)) = 5000 /\
   CommitteeMaxSize (config (New conf snapshotDb cache)) = CommitteeMaxSize conf /\
   ElectionPeriod (config (New conf snapshotDb cache)) = ElectionPeriod conf /\
   ValidPeriod (config (New conf snapshotDb cache)) = ValidPeriod conf /\
   BlockInterval (config (New conf snapshotDb cache)) = BlockInterval conf /\
   CurrencyRates (config (New conf snapshotDb cache)) = CurrencyRates conf) /\
  sameIdentity g (Prepare chain now g header).1.2 /\
  sameIdentity g (VerifySeal chain now g header).1.2 /\
  sameIdentity g (Seal chain signFn jitter stopped g header).2 /\
  config (Authorize who signFn g).1 = config g /\
  signer (Authorize who signFn g).1 = who.
Proof.
  split; [|split; [|split]].
  - unfold New. simpl. destruct (Z.eqb_spec (Epoch conf) 0); [done|done].
  - intros Hne. unfold New. simpl. by destruct (Z.eqb_spec (Epoch conf) 0).
  - intros Hzero. unfold New. simpl. by rewrite Hzero.
  - split; [apply Prepare_identity|]. split; [apply VerifySeal_identity|].
    split; [apply Seal_identity|]. done.
Qed.
